(** * TCP keepalive offload: Wi-Fi association, socket start-up, idle task

    A shallow embedding of [tcp_keepalive_offload.c]:
    - [find_my_tko_descriptor]: lookup of an offload descriptor by name in
      the NULL-terminated list supplied by the configurator;
    - [tcp_socket_connection_start]: one TCP connection per configured slot;
    - [wifi_connect]: association with the access point, with bounded retry;
    - [network_idle_task]: the loop that suspends the network stack forever.

    The first three functions terminate; they are embedded as state-passing
    functions over a machine state holding the file's globals, the state of
    the external collaborators and the log of calls and diagnostics.  The
    idle task never returns; it is embedded as an interaction tree. *)

From Stdlib Require Import ZArith List String Ascii Bool Lia.
From ITree Require Import ITree ITreeFacts Props.Leaf.

Import ListNotations.
Local Open Scope Z_scope.

(* ===================================================================== *)
(** ** C strings and the three libc functions the file calls *)
(* ===================================================================== *)

Module CString.

(** A [const char *] is modelled by the bytes stored at the pointer; the
    byte after the last one of the [string] is the terminating NUL, and a
    NUL inside the [string] ends the C string early, as it does in memory. *)

Definition NUL : ascii := Ascii.zero.

(** Value of a character as [unsigned char], the type the comparison
    functions of libc compare in. *)
Definition uchar (c : ascii) : Z := Z.of_N (N_of_ascii c).

(** [*s] *)
Definition char_at (s : string) : ascii :=
  match s with
  | EmptyString => NUL
  | String c _ => c
  end.

(** [s + 1], used only when [*s] is not NUL *)
Definition advance (s : string) : string :=
  match s with
  | EmptyString => EmptyString
  | String _ s' => s'
  end.

Fixpoint strlen (s : string) : nat :=
  match s with
  | EmptyString => O
  | String c s' => if Ascii.eqb c NUL then O else S (strlen s')
  end.

(** [strncmp s1 s2 n]: compares at most [n] characters and stops after a
    NUL; the sign of the result is that of the first differing pair. *)
Fixpoint strncmp (s1 s2 : string) (n : nat) : Z :=
  match n with
  | O => 0
  | S n' =>
      let c1 := char_at s1 in
      let c2 := char_at s2 in
      if negb (Ascii.eqb c1 c2) then uchar c1 - uchar c2
      else if Ascii.eqb c1 NUL then 0
      else strncmp (advance s1) (advance s2) n'
  end.

Fixpoint strcmp (s1 s2 : string) : Z :=
  match s1 with
  | EmptyString => uchar NUL - uchar (char_at s2)
  | String c1 s1' =>
      let c2 := char_at s2 in
      if negb (Ascii.eqb c1 c2) then uchar c1 - uchar c2
      else if Ascii.eqb c1 NUL then 0
      else strcmp s1' (advance s2)
  end.

(** The characters of the C string: those before the first NUL. *)
Fixpoint c_chars (s : string) : list ascii :=
  match s with
  | EmptyString => []
  | String c s' => if Ascii.eqb c NUL then [] else c :: c_chars s'
  end.

(** [starts_with stored search]: the C string [search] is an initial
    segment of the C string [stored]. *)
Definition starts_with (stored search : string) : Prop :=
  exists rest, c_chars stored = c_chars search ++ rest.

End CString.

(* ===================================================================== *)
(** ** Data model *)
(* ===================================================================== *)

Module Firmware.

Import CString.

(** [cy_rslt_t] is a [uint32_t]. *)
Definition cy_rslt_t := Z.

(** One entry of [cy_tko_ol_cfg_t.ports]: the two ports are [uint16_t],
    [remote_ip] is a C string. *)
Record cy_tko_ol_connect_t := {
  local_port : Z;
  remote_port : Z;
  remote_ip : string
}.

(** The TCP keepalive configuration.  This file reads only [ports], an
    array of [MAX_TKO] entries; the blob as a whole is handed to the socket
    helper. *)
Record cy_tko_ol_cfg_t := {
  ports : list cy_tko_ol_connect_t
}.

(** An offload descriptor.  [name] is a [const char *]: [None] is the NULL
    that ends the list.  [cfg] is a [const void *], read by this file as a
    [cy_tko_ol_cfg_t]: [None] is NULL. *)
Record ol_desc_t := {
  name : option string;
  cfg : option cy_tko_ol_cfg_t
}.

(** A non-NULL [const ol_desc_t *]: the array it points into and the
    position in it.  NULL is [None] of [option desc_ptr]. *)
Record desc_ptr := {
  base : list ol_desc_t;
  off : nat
}.

Inductive cy_wcm_interface_t := CY_WCM_INTERFACE_TYPE_STA | CY_WCM_INTERFACE_TYPE_AP.

Record cy_wcm_config_t := {
  interface : cy_wcm_interface_t
}.

Record cy_wcm_ap_credentials_t := {
  SSID : string;
  password : string;
  security : Z
}.

Record cy_wcm_connect_params_t := {
  ap_credentials : cy_wcm_ap_credentials_t
}.

Inductive cy_wcm_ip_version_t := CY_WCM_IP_VER_V4 | CY_WCM_IP_VER_V6.

Definition cy_wcm_ip_version_eqb (a b : cy_wcm_ip_version_t) : bool :=
  match a, b with
  | CY_WCM_IP_VER_V4, CY_WCM_IP_VER_V4 => true
  | CY_WCM_IP_VER_V6, CY_WCM_IP_VER_V6 => true
  | _, _ => false
  end.

(** [ip] is the content of the address union, printed through its [v4]
    member. *)
Record cy_wcm_ip_address_t := {
  version : cy_wcm_ip_version_t;
  ip : Z
}.

Inductive cy_lwip_nw_interface_role_t := CY_LWIP_STA_NW_INTERFACE | CY_LWIP_AP_NW_INTERFACE.

(** The diagnostics of the file, one constructor per format string, with
    the arguments of the format. *)
Inductive message :=
| Unable_to_find_offloads (search_name : string)
| Socket_initialization_failed (result : cy_rslt_t)
| Offload_configuration_not_found
| Taking_configuration
| Socket_unable_to_connect (index : nat) (result : cy_rslt_t)
    (ip_str : string) (lport rport : Z)
| Socket_created_connection (index : nat) (ip_str : string) (lport rport : Z)
| Socket_skipped (index : nat)
| Offload_descriptor_not_found
| Wifi_initialization_successful
| Join_to_AP (ssid : string)
| Joined_wifi_network (ssid : string)
| Assigned_IP_address (v4 : Z)
| Failed_to_join.

(** What the file does that is visible outside it: the calls to its
    collaborators, with the status they returned, and the diagnostics. *)
Inductive event :=
| Ev_cy_lwip_get_interface (role : cy_lwip_nw_interface_role_t)
| Ev_cy_socket_init (result : cy_rslt_t)
| Ev_get_default_ol_list
| Ev_cy_tcp_create_socket_connection (index : nat) (ip_str : string)
    (rport lport : Z) (downloaded : cy_tko_ol_cfg_t) (host_keepalive : Z)
    (result : cy_rslt_t)
| Ev_cy_wcm_init (config : cy_wcm_config_t) (result : cy_rslt_t)
| Ev_cy_wcm_connect_ap (params : cy_wcm_connect_params_t) (result : cy_rslt_t)
| Err (msg : message)
| Info (msg : message).

(** [a[i] = v] on an array of fixed size; the callers check [i] first. *)
Fixpoint update {A : Type} (i : nat) (v : A) (a : list A) : list A :=
  match a, i with
  | [], _ => []
  | _ :: a', O => v :: a'
  | x :: a', S i' => x :: update i' v a'
  end.

(** *** Collaborators and constants

    What the file takes from its headers and from the libraries it links
    with.  [World] is the state of everything outside this file: the socket
    library, the connection manager, the network.  Each collaborator is a
    function of that state. *)

Class Platform := {
  World : Type;
  (** [struct netif] and [struct cy_socket_ctx_t]; pointers to them are
      options, [None] being NULL. *)
  Netif : Type;
  Socket : Type;

  cy_lwip_get_interface : World -> cy_lwip_nw_interface_role_t -> option Netif;
  cy_socket_init : World -> cy_rslt_t * World;
  (** The configurator's list: NULL, or an array of descriptors. *)
  get_default_ol_list : World -> option (list ol_desc_t);
  (** The helper receives [&global_socket[index]]: it is given the slot's
      content and returns the content it leaves there. *)
  cy_tcp_create_socket_connection :
    World -> option Netif -> option Socket -> string -> Z -> Z ->
    cy_tko_ol_cfg_t -> Z -> cy_rslt_t * option Socket * World;
  cy_wcm_init : World -> cy_wcm_config_t -> cy_rslt_t * World;
  (** Receives [&connect_param] (read only) and [&ip_addr] (written). *)
  cy_wcm_connect_ap :
    World -> cy_wcm_connect_params_t -> cy_wcm_ip_address_t ->
    cy_rslt_t * cy_wcm_ip_address_t * World;

  CY_RSLT_SUCCESS : cy_rslt_t;
  CY_RSLT_TYPE_ERROR : cy_rslt_t;
  MAX_TKO : nat;
  NULL_IP_ADDRESS : string;
  ENABLE_HOST_TCP_KEEPALIVE : Z;
  (** A [uint32_t] constant: [retry_count] reaches it without wrapping. *)
  MAX_WIFI_RETRY_COUNT : nat;
  WIFI_SSID : string;
  WIFI_PASSWORD : string;
  WIFI_SECURITY_TYPE : Z;
  (** FreeRTOS: the longest wait, in ticks, and milliseconds to ticks. *)
  portMAX_DELAY : Z;
  pdMS_TO_TICKS : Z -> Z;
  NETWORK_INACTIVE_INTERVAL_MS : Z;
  NETWORK_INACTIVE_WINDOW_MS : Z;
  NETWORK_SUSPEND_DELAY_MS : Z
}.

Section Program.

Context {platform : Platform}.

Definition TCP_KEEPALIVE_OFFLOAD : string := "TKO"%string.

(** *** Machine state: the globals of the file, the world, the log *)

Record machine := {
  world : World;
  connect_param : cy_wcm_connect_params_t;
  ip_addr : cy_wcm_ip_address_t;
  global_socket : list (option Socket);
  log : list event
}.

Definition emit (e : event) (m : machine) : machine :=
  {| world := world m;
     connect_param := connect_param m;
     ip_addr := ip_addr m;
     global_socket := global_socket m;
     log := log m ++ [e] |}.

Definition set_world (w : World) (m : machine) : machine :=
  {| world := w;
     connect_param := connect_param m;
     ip_addr := ip_addr m;
     global_socket := global_socket m;
     log := log m |}.

Definition set_connect_param (p : cy_wcm_connect_params_t) (m : machine) : machine :=
  {| world := world m;
     connect_param := p;
     ip_addr := ip_addr m;
     global_socket := global_socket m;
     log := log m |}.

Definition set_ip_addr (a : cy_wcm_ip_address_t) (m : machine) : machine :=
  {| world := world m;
     connect_param := connect_param m;
     ip_addr := a;
     global_socket := global_socket m;
     log := log m |}.

Definition set_global_socket (g : list (option Socket)) (m : machine) : machine :=
  {| world := world m;
     connect_param := connect_param m;
     ip_addr := ip_addr m;
     global_socket := g;
     log := log m |}.

(** How a function ends: it returns, it stops in [CY_ASSERT], or it reads
    outside an array, where C defines no behaviour. *)
Inductive outcome (A : Type) :=
| Returned (a : A) (m : machine)
| Halted (status : cy_rslt_t) (m : machine)
| OutOfBounds (m : machine).

Arguments Returned {A} a m.
Arguments Halted {A} status m.
Arguments OutOfBounds {A} m.

Definition M (A : Type) : Type := machine -> outcome A.

Definition ret {A : Type} (a : A) : M A := fun m => Returned a m.

Definition bind {A B : Type} (c : M A) (k : A -> M B) : M B :=
  fun m =>
    match c m with
    | Returned a m' => k a m'
    | Halted status m' => Halted status m'
    | OutOfBounds m' => OutOfBounds m'
    end.

Declare Scope fw_scope.
Delimit Scope fw_scope with fw.
Notation "x <- c ;; k" := (bind c (fun x => k))
  (at level 61, c at next level, right associativity) : fw_scope.
Notation "c ;; k" := (bind c (fun _ => k))
  (at level 61, right associativity) : fw_scope.
Local Open Scope fw_scope.

Definition ERR_INFO (msg : message) : M unit :=
  fun m => Returned tt (emit (Err msg) m).

Definition APP_INFO (msg : message) : M unit :=
  fun m => Returned tt (emit (Info msg) m).

(** *** Calls to the collaborators *)

Definition call_cy_lwip_get_interface (role : cy_lwip_nw_interface_role_t)
  : M (option Netif) :=
  fun m =>
    Returned (cy_lwip_get_interface (world m) role)
             (emit (Ev_cy_lwip_get_interface role) m).

Definition call_cy_socket_init : M cy_rslt_t :=
  fun m =>
    let '(result, w) := cy_socket_init (world m) in
    Returned result (emit (Ev_cy_socket_init result) (set_world w m)).

Definition call_get_default_ol_list : M (option desc_ptr) :=
  fun m =>
    Returned
      (match get_default_ol_list (world m) with
       | None => None
       | Some ol => Some {| base := ol; off := O |}
       end)
      (emit Ev_get_default_ol_list m).

Definition call_cy_tcp_create_socket_connection
    (netif : option Netif) (index : nat) (ip_str : string) (rport lport : Z)
    (downloaded : cy_tko_ol_cfg_t) (host_keepalive : Z) : M cy_rslt_t :=
  fun m =>
    match nth_error (global_socket m) index with
    | None => OutOfBounds m
    | Some slot =>
        let '(result, slot', w) :=
          cy_tcp_create_socket_connection (world m) netif slot ip_str rport
            lport downloaded host_keepalive in
        Returned result
          (emit (Ev_cy_tcp_create_socket_connection index ip_str rport lport
                   downloaded host_keepalive result)
             (set_global_socket (update index slot' (global_socket m))
                (set_world w m)))
    end.

Definition call_cy_wcm_init (config : cy_wcm_config_t) : M cy_rslt_t :=
  fun m =>
    let '(result, w) := cy_wcm_init (world m) config in
    Returned result (emit (Ev_cy_wcm_init config result) (set_world w m)).

Definition call_cy_wcm_connect_ap : M cy_rslt_t :=
  fun m =>
    let '(result, a, w) :=
      cy_wcm_connect_ap (world m) (connect_param m) (ip_addr m) in
    Returned result
      (emit (Ev_cy_wcm_connect_ap (connect_param m) result)
         (set_ip_addr a (set_world w m))).

(** Modelled from the spec: the macro [PRINT_AND_ASSERT] is declared in
    [tcp_keepalive_offload.h], which is not among the sources.  The spec
    says of its one use: "socket subsystem initialization must succeed
    first -- if initialization fails, abort immediately with a fatal status
    (this is treated as unrecoverable, not retried)".  On a status other
    than success it prints the message and stops the function with that
    status; on success it does nothing. *)
Definition PRINT_AND_ASSERT (result : cy_rslt_t) (msg : message) : M unit :=
  fun m =>
    if negb (CY_RSLT_SUCCESS =? result)
    then Halted result (emit (Err msg) m)
    else Returned tt m.

(** *** [find_my_tko_descriptor] *)

(** [*p], for a non-NULL [p] *)
Definition deref (p : desc_ptr) : M ol_desc_t :=
  fun m =>
    match nth_error (base p) (off p) with
    | None => OutOfBounds m
    | Some d => Returned d m
    end.

(** The [while] loop of lines 105-109, on the descriptors from the current
    position on: the position at which the loop stops, or [None] when the
    loop reads beyond the last descriptor of the array. *)
Fixpoint scan (rest : list ol_desc_t) (search_name : string) (position : nat)
  : option nat :=
  match rest with
  | [] => None
  | d :: rest' =>
      match name d with
      | None => Some position
      | Some stored =>
          if negb (0 =? strncmp stored search_name (strlen search_name))
          then scan rest' search_name (S position)
          else Some position
      end
  end.

Definition scan_offloads_list (offloads_list : option desc_ptr)
    (search_name : string) : M (option desc_ptr) :=
  fun m =>
    match offloads_list with
    | None => Returned None m
    | Some p =>
        match scan (skipn (off p) (base p)) search_name (off p) with
        | None => OutOfBounds m
        | Some position =>
            Returned (Some {| base := base p; off := position |}) m
        end
    end.

Definition find_my_tko_descriptor (search_name : string)
  : M (option desc_ptr) :=
  offloads_list <- call_get_default_ol_list ;;
  offloads_list <- scan_offloads_list offloads_list search_name ;;
  match offloads_list with
  | None =>
      ERR_INFO (Unable_to_find_offloads search_name) ;;
      ret None
  | Some p =>
      d <- deref p ;;
      match name d with
      | None =>
          ERR_INFO (Unable_to_find_offloads search_name) ;;
          ret None
      | Some _ => ret (Some p)
      end
  end.

(** *** [tcp_socket_connection_start] *)

(** [downloaded->ports[index]] *)
Definition read_port (downloaded : cy_tko_ol_cfg_t) (index : nat)
  : M cy_tko_ol_connect_t :=
  fun m =>
    match nth_error (ports downloaded) index with
    | None => OutOfBounds m
    | Some port => Returned port m
    end.

(** The condition of line 211. *)
Definition is_configured (port : cy_tko_ol_connect_t) : bool :=
  (0 <? remote_port port) && (0 <? local_port port) &&
  negb (strcmp (remote_ip port) NULL_IP_ADDRESS =? 0).

(** The body of the [for] loop of line 207; the value is the new
    [socket_connection_status]. *)
Definition connect_slot (netif : option Netif) (downloaded : cy_tko_ol_cfg_t)
    (index : nat) (socket_connection_status : cy_rslt_t) : M cy_rslt_t :=
  port <- read_port downloaded index ;;
  if is_configured port then
    result <- call_cy_tcp_create_socket_connection netif index
                (remote_ip port) (remote_port port) (local_port port)
                downloaded ENABLE_HOST_TCP_KEEPALIVE ;;
    if negb (CY_RSLT_SUCCESS =? result) then
      ERR_INFO (Socket_unable_to_connect index result (remote_ip port)
                  (local_port port) (remote_port port)) ;;
      ret result
    else
      APP_INFO (Socket_created_connection index (remote_ip port)
                  (local_port port) (remote_port port)) ;;
      ret socket_connection_status
  else
    APP_INFO (Socket_skipped index) ;;
    ret socket_connection_status.

(** [for (; index < MAX_TKO; index++)], with [remaining = MAX_TKO - index]. *)
Fixpoint connect_loop (remaining : nat) (netif : option Netif)
    (downloaded : cy_tko_ol_cfg_t) (index : nat)
    (socket_connection_status : cy_rslt_t) : M cy_rslt_t :=
  match remaining with
  | O => ret socket_connection_status
  | S remaining' =>
      socket_connection_status <-
        connect_slot netif downloaded index socket_connection_status ;;
      connect_loop remaining' netif downloaded (S index)
        socket_connection_status
  end.

Definition tcp_socket_connection_start : M cy_rslt_t :=
  netif <- call_cy_lwip_get_interface CY_LWIP_STA_NW_INTERFACE ;;
  result <- call_cy_socket_init ;;
  PRINT_AND_ASSERT result (Socket_initialization_failed result) ;;
  offload_list <- find_my_tko_descriptor TCP_KEEPALIVE_OFFLOAD ;;
  match offload_list with
  | None =>
      ERR_INFO Offload_configuration_not_found ;;
      ret CY_RSLT_TYPE_ERROR
  | Some p =>
      d <- deref p ;;
      match cfg d with
      | Some downloaded =>
          APP_INFO Taking_configuration ;;
          connect_loop MAX_TKO netif downloaded O CY_RSLT_SUCCESS
      | None =>
          ERR_INFO Offload_descriptor_not_found ;;
          ret CY_RSLT_TYPE_ERROR
      end
  end.

(** *** [wifi_connect] *)

(** [connect_param] after the three assignments of lines 286-288; its
    other members stay zero.  The two [memcpy] copy a string literal with
    its NUL; the literals are taken to fit the arrays they go to. *)
Definition configured_params : cy_wcm_connect_params_t :=
  {| ap_credentials :=
       {| SSID := WIFI_SSID;
          password := WIFI_PASSWORD;
          security := WIFI_SECURITY_TYPE |} |}.

Definition set_credentials : M unit :=
  fun m => Returned tt (set_connect_param configured_params m).

Definition print_assigned_address : M unit :=
  fun m =>
    if cy_wcm_ip_version_eqb CY_WCM_IP_VER_V4 (version (ip_addr m))
    then APP_INFO (Assigned_IP_address (ip (ip_addr m))) m
    else Returned tt m.

Definition ssid_of_connect_param : M string :=
  fun m => Returned (SSID (ap_credentials (connect_param m))) m.

(** [for (; retry_count < MAX_WIFI_RETRY_COUNT; retry_count++)], with
    [remaining = MAX_WIFI_RETRY_COUNT - retry_count]; [result] is the value
    the variable has when the condition is tested. *)
Fixpoint connect_ap_loop (remaining : nat) (retry_count : nat)
    (result : cy_rslt_t) : M cy_rslt_t :=
  match remaining with
  | O => ret result
  | S remaining' =>
      result <- call_cy_wcm_connect_ap ;;
      if CY_RSLT_SUCCESS =? result then
        ssid <- ssid_of_connect_param ;;
        APP_INFO (Joined_wifi_network ssid) ;;
        print_assigned_address ;;
        ret result
      else
        ERR_INFO Failed_to_join ;;
        connect_ap_loop remaining' (S retry_count) result
  end.

Definition wifi_connect : M cy_rslt_t :=
  let wcm_config := {| interface := CY_WCM_INTERFACE_TYPE_STA |} in
  result <- call_cy_wcm_init wcm_config ;;
  if CY_RSLT_SUCCESS =? result then
    APP_INFO Wifi_initialization_successful ;;
    set_credentials ;;
    ssid <- ssid_of_connect_param ;;
    APP_INFO (Join_to_AP ssid) ;;
    connect_ap_loop MAX_WIFI_RETRY_COUNT O result
  else
    ret result.

(** *** Observations on an outcome and on a log *)

(** An outcome without its machine state. *)
Inductive verdict (A : Type) :=
| Value (a : A)
| Stopped (status : cy_rslt_t)
| Undefined.

Arguments Value {A} a.
Arguments Stopped {A} status.
Arguments Undefined {A}.

Definition verdict_of {A : Type} (o : outcome A) : verdict A :=
  match o with
  | Returned a _ => Value a
  | Halted status _ => Stopped status
  | OutOfBounds _ => Undefined
  end.

Definition final {A : Type} (o : outcome A) : machine :=
  match o with
  | Returned _ m => m
  | Halted _ m => m
  | OutOfBounds m => m
  end.

Definition is_call (e : event) : bool :=
  match e with
  | Err _ | Info _ => false
  | _ => true
  end.

(** The calls to collaborators in a log, without the diagnostics. *)
Definition calls (evs : list event) : list event := filter is_call evs.

(** The connect attempts in a log: slot and status, in order. *)
Fixpoint connect_attempts (evs : list event) : list (nat * cy_rslt_t) :=
  match evs with
  | [] => []
  | Ev_cy_tcp_create_socket_connection index _ _ _ _ _ result :: evs' =>
      (index, result) :: connect_attempts evs'
  | _ :: evs' => connect_attempts evs'
  end.

(** What was done with each slot, in order: [(i, true)] for a connect
    attempt on slot [i], [(i, false)] for the slot being skipped. *)
Fixpoint slot_steps (evs : list event) : list (nat * bool) :=
  match evs with
  | [] => []
  | Ev_cy_tcp_create_socket_connection index _ _ _ _ _ _ :: evs' =>
      (index, true) :: slot_steps evs'
  | Info (Socket_skipped index) :: evs' => (index, false) :: slot_steps evs'
  | _ :: evs' => slot_steps evs'
  end.

(** The statuses of the association attempts in a log, in order. *)
Fixpoint association_attempts (evs : list event) : list cy_rslt_t :=
  match evs with
  | [] => []
  | Ev_cy_wcm_connect_ap _ result :: evs' => result :: association_attempts evs'
  | _ :: evs' => association_attempts evs'
  end.

(** The statuses other than success in a list of statuses. *)
Definition failures (statuses : list cy_rslt_t) : list cy_rslt_t :=
  filter (fun s => negb (CY_RSLT_SUCCESS =? s)) statuses.

(** [downloaded->ports[index]] is a configured binding. *)
Definition configured_at (downloaded : cy_tko_ol_cfg_t) (index : nat) : bool :=
  match nth_error (ports downloaded) index with
  | Some port => is_configured port
  | None => false
  end.

(** A binding is active, in the words of the data model. *)
Definition active (port : cy_tko_ol_connect_t) : Prop :=
  remote_port port > 0 /\ local_port port > 0 /\
  c_chars (remote_ip port) <> c_chars NULL_IP_ADDRESS.

(** Position [k] holds the first descriptor whose [name] is NULL. *)
Definition first_sentinel (ol : list ol_desc_t) (k : nat) : Prop :=
  (exists d, nth_error ol k = Some d /\ name d = None) /\
  (forall j, (j < k)%nat ->
     exists d stored, nth_error ol j = Some d /\ name d = Some stored).

(** The descriptor at position [j] has a name that starts with the search
    name. *)
Definition matches_at (ol : list ol_desc_t) (search_name : string) (j : nat)
  : Prop :=
  exists d stored,
    nth_error ol j = Some d /\ name d = Some stored /\
    starts_with stored search_name.

(** One failed attempt, as it appears in the log. *)
Definition failed_attempt (params : cy_wcm_connect_params_t)
    (status : cy_rslt_t) : list event :=
  [Ev_cy_wcm_connect_ap params status; Err Failed_to_join].

(** The machine [tcp_socket_connection_start] makes its lookup in: the one
    left by the calls of lines 181 and 184. *)
Definition initialized (m : machine) : machine :=
  let '(result, w) := cy_socket_init (world m) in
  emit (Ev_cy_socket_init result)
    (set_world w (emit (Ev_cy_lwip_get_interface CY_LWIP_STA_NW_INTERFACE) m)).

(** The association collaborator called [n] times in a row on the same
    parameters: the world and the address it leaves. *)
Fixpoint after_attempts (n : nat) (params : cy_wcm_connect_params_t)
    (w : World) (a : cy_wcm_ip_address_t) : World * cy_wcm_ip_address_t :=
  match n with
  | O => (w, a)
  | S n' =>
      let '(_, a', w') := cy_wcm_connect_ap w params a in
      after_attempts n' params w' a'
  end.

(** The status of attempt number [n + 1] in such a row. *)
Definition attempt_status (params : cy_wcm_connect_params_t)
    (w : World) (a : cy_wcm_ip_address_t) (n : nat) : cy_rslt_t :=
  let '(w', a') := after_attempts n params w a in
  fst (fst (cy_wcm_connect_ap w' params a')).

(** *** Further observations *)

(** The loop of the lookup goes past position [i]: the descriptor there
    has a name, and the name does not start with the search name. *)
Definition skipped_at (ol : list ol_desc_t) (search_name : string) (i : nat)
  : Prop :=
  exists d stored,
    nth_error ol i = Some d /\ name d = Some stored /\
    ~ starts_with stored search_name.

(** The loop of the lookup stops at position [j]: the descriptor there has
    no name, or a name that starts with the search name. *)
Definition stops_at (ol : list ol_desc_t) (search_name : string) (j : nat)
  : Prop :=
  exists d,
    nth_error ol j = Some d /\
    (name d = None \/
     exists stored, name d = Some stored /\ starts_with stored search_name).

(** A connect attempt in the log was made for a configured binding of the
    blob, with that binding's address and ports, the blob itself and the
    host keepalive setting.  Other events are not concerned. *)
Definition well_addressed (downloaded : cy_tko_ol_cfg_t) (e : event) : Prop :=
  match e with
  | Ev_cy_tcp_create_socket_connection index ip_str rport lport blob
      host_keepalive _ =>
      exists port,
        nth_error (ports downloaded) index = Some port /\
        is_configured port = true /\
        ip_str = remote_ip port /\ rport = remote_port port /\
        lport = local_port port /\ blob = downloaded /\
        host_keepalive = ENABLE_HOST_TCP_KEEPALIVE
  | _ => True
  end.

(** The failures the diagnostics report: slot and status. *)
Fixpoint reported_failures (evs : list event) : list (nat * cy_rslt_t) :=
  match evs with
  | [] => []
  | Err (Socket_unable_to_connect index result _ _ _) :: evs' =>
      (index, result) :: reported_failures evs'
  | _ :: evs' => reported_failures evs'
  end.

(** The connections the diagnostics report: their slots. *)
Fixpoint reported_connections (evs : list event) : list nat :=
  match evs with
  | [] => []
  | Info (Socket_created_connection index _ _ _) :: evs' =>
      index :: reported_connections evs'
  | _ :: evs' => reported_connections evs'
  end.

(** The number of "Failed to join ... Retrying" diagnostics in a log. *)
Fixpoint retry_notices (evs : list event) : nat :=
  match evs with
  | [] => O
  | Err Failed_to_join :: evs' => S (retry_notices evs')
  | _ :: evs' => retry_notices evs'
  end.

(** The event is a call to the socket helper. *)
Definition is_connect_attempt (e : event) : bool :=
  match e with
  | Ev_cy_tcp_create_socket_connection _ _ _ _ _ _ _ => true
  | _ => false
  end.

(** A connect attempt, as [(slot, status)], failed. *)
Definition attempt_failed (attempt : nat * cy_rslt_t) : bool :=
  negb (CY_RSLT_SUCCESS =? snd attempt).



End Program.

Arguments Returned {platform A} a m.
Arguments Halted {platform A} status m.
Arguments OutOfBounds {platform A} m.
Arguments Value {A} a.
Arguments Stopped {A} status.
Arguments Undefined {A}.

End Firmware.

(* ===================================================================== *)
(** ** [network_idle_task] *)
(* ===================================================================== *)

Module Idle.

Import Firmware.
Import ITreeNotations.
Local Open Scope itree_scope.

Section Task.

Context {platform : Platform}.

(** The three calls of the task.  [wait_net_suspend] returns an [int32_t],
    which the task ignores. *)
Variant idleE : Type -> Type :=
| Cy_lwip_get_interface (role : cy_lwip_nw_interface_role_t)
    : idleE (option Netif)
| Wait_net_suspend (net_intf : option Netif) (wait : Z)
    (network_inactive_interval : Z) (network_inactive_window : Z) : idleE Z
| VTaskDelay (ticks : Z) : idleE unit.

(** [while (cond) body] *)
Definition while_loop (cond : bool) (body : itree idleE unit)
  : itree idleE unit :=
  ITree.iter
    (fun _ : unit =>
       if cond then body ;; Ret (inl tt) else Ret (inr tt))
    tt.

(** The body of the loop of line 141. *)
Definition suspend_then_delay (wifi : option Netif) : itree idleE unit :=
  ITree.trigger
    (Wait_net_suspend wifi portMAX_DELAY NETWORK_INACTIVE_INTERVAL_MS
       NETWORK_INACTIVE_WINDOW_MS) ;;
  ITree.trigger (VTaskDelay (pdMS_TO_TICKS NETWORK_SUSPEND_DELAY_MS)).

Definition network_idle_task (arg : Z) : itree idleE unit :=
  wifi <- ITree.trigger (Cy_lwip_get_interface CY_LWIP_STA_NW_INTERFACE) ;;
  while_loop true (suspend_then_delay wifi).

(** The events of the first [fuel] steps of a task, when the collaborators
    answer [netif], [status] and [tt]; [true] when the task has returned
    within these steps. *)
Inductive observed :=
| Obs_get_interface (role : cy_lwip_nw_interface_role_t)
| Obs_wait_net_suspend (net_intf : option Netif) (wait interval window : Z)
| Obs_delay (ticks : Z).

Fixpoint run (fuel : nat) (netif : option Netif) (status : Z)
    (t : itree idleE unit) : list observed * bool :=
  match fuel with
  | O => ([], false)
  | S fuel' =>
      match observe t with
      | RetF _ => ([], true)
      | TauF t' => run fuel' netif status t'
      | VisF e k =>
          match e in idleE X return (X -> itree idleE unit) -> _ with
          | Cy_lwip_get_interface role => fun k =>
              let '(obs, returned) := run fuel' netif status (k netif) in
              (Obs_get_interface role :: obs, returned)
          | Wait_net_suspend n w i win => fun k =>
              let '(obs, returned) := run fuel' netif status (k status) in
              (Obs_wait_net_suspend n w i win :: obs, returned)
          | VTaskDelay ticks => fun k =>
              let '(obs, returned) := run fuel' netif status (k tt) in
              (Obs_delay ticks :: obs, returned)
          end k
      end
  end.

(** What one turn of the loop of the task shows. *)
Definition one_turn (wifi : option Netif) : list observed :=
  [Obs_wait_net_suspend wifi portMAX_DELAY NETWORK_INACTIVE_INTERVAL_MS
     NETWORK_INACTIVE_WINDOW_MS;
   Obs_delay (pdMS_TO_TICKS NETWORK_SUSPEND_DELAY_MS)].

End Task.

End Idle.

(* ===================================================================== *)
(** ** Stub collaborators, for running the functions on examples *)
(* ===================================================================== *)

Module Stubs.

Import Firmware.

(** What the stubs answer.  The world counts the calls made to the socket
    helper and to the association function; call number [n] gets the
    [n]-th status of the script, and success once the script is over. *)
Record script := {
  socket_init_status : Z;
  offload_list : option (list ol_desc_t);
  connect_statuses : list Z;
  wcm_init_status : Z;
  ap_statuses : list Z;
  max_tko : nat;
  max_wifi_retry_count : nat
}.

Definition stub_address (n : nat) : cy_wcm_ip_address_t :=
  {| version := CY_WCM_IP_VER_V4; ip := Z.of_nat n |}.

Definition stub (s : script) : Platform :=
  {| World := nat * nat;
     Netif := unit;
     Socket := nat;
     cy_lwip_get_interface := fun _ _ => Some tt;
     cy_socket_init := fun w => (socket_init_status s, w);
     get_default_ol_list := fun _ => offload_list s;
     cy_tcp_create_socket_connection :=
       fun w _ slot _ _ _ _ _ =>
         let status := nth (fst w) (connect_statuses s) 0 in
         (status, if status =? 0 then Some (fst w) else slot,
          (S (fst w), snd w));
     cy_wcm_init := fun w _ => (wcm_init_status s, w);
     cy_wcm_connect_ap :=
       fun w _ a =>
         let status := nth (snd w) (ap_statuses s) 0 in
         (status, if status =? 0 then stub_address (snd w) else a,
          (fst w, S (snd w)));
     CY_RSLT_SUCCESS := 0;
     CY_RSLT_TYPE_ERROR := 2;
     MAX_TKO := max_tko s;
     NULL_IP_ADDRESS := "0.0.0.0"%string;
     ENABLE_HOST_TCP_KEEPALIVE := 0;
     MAX_WIFI_RETRY_COUNT := max_wifi_retry_count s;
     WIFI_SSID := "WIFI_SSID"%string;
     WIFI_PASSWORD := "WIFI_PASSWORD"%string;
     WIFI_SECURITY_TYPE := 4194310;
     portMAX_DELAY := 4294967295;
     pdMS_TO_TICKS := fun ms => ms;
     NETWORK_INACTIVE_INTERVAL_MS := 300;
     NETWORK_INACTIVE_WINDOW_MS := 200;
     NETWORK_SUSPEND_DELAY_MS := 400 |}.

(** The machine at start-up: zeroed globals, nothing logged. *)
Definition boot (s : script) (slots : nat) : @machine (stub s) :=
  @Build_machine (stub s)
    (O, O)
    {| ap_credentials :=
         {| SSID := EmptyString; password := EmptyString; security := 0 |} |}
    {| version := CY_WCM_IP_VER_V6; ip := 0 |}
    (repeat None slots)
    [].

Definition binding (ip_str : string) (rport lport : Z) : cy_tko_ol_connect_t :=
  {| local_port := lport; remote_port := rport; remote_ip := ip_str |}.

(** Four slots: two configured, one with no remote port, one with the
    no-address value. *)
Definition tko_cfg : cy_tko_ol_cfg_t :=
  {| ports :=
       [ binding "192.168.1.10" 3360 3353;
         binding "192.168.1.11" 0 3354;
         binding "192.168.1.12" 3362 3355;
         binding "0.0.0.0" 3363 3356 ] |}.

Definition sentinel : ol_desc_t := {| name := None; cfg := None |}.

Definition offloads : list ol_desc_t :=
  [ {| name := Some "Pkt_Filter"%string; cfg := None |};
    {| name := Some "TKO"%string; cfg := Some tko_cfg |};
    sentinel ].

(** A list whose keepalive descriptor has no configuration. *)
Definition offloads_no_cfg : list ol_desc_t :=
  [ {| name := Some "TKO"%string; cfg := None |}; sentinel ].

(** A list in which a longer name comes before the exact one. *)
Definition offloads_longer_name : list ol_desc_t :=
  [ {| name := Some "TKO_v2"%string; cfg := None |};
    {| name := Some "TKO"%string; cfg := Some tko_cfg |};
    sentinel ].

Definition script_ok : script :=
  {| socket_init_status := 0;
     offload_list := Some offloads;
     connect_statuses := [0; 7];
     wcm_init_status := 0;
     ap_statuses := [5; 6; 0];
     max_tko := 4;
     max_wifi_retry_count := 3 |}.

(** A script whose keepalive descriptor has no configuration. *)
Definition script_no_cfg : script :=
  {| socket_init_status := 0;
     offload_list := Some offloads_no_cfg;
     connect_statuses := [];
     wcm_init_status := 0;
     ap_statuses := [];
     max_tko := 4;
     max_wifi_retry_count := 3 |}.

(** A script whose socket library fails to initialize. *)
Definition script_init_fails : script :=
  {| socket_init_status := 9;
     offload_list := Some offloads;
     connect_statuses := [];
     wcm_init_status := 0;
     ap_statuses := [];
     max_tko := 4;
     max_wifi_retry_count := 3 |}.

(** A script whose access point refuses every attempt. *)
Definition script_never_joins : script :=
  {| socket_init_status := 0;
     offload_list := Some offloads;
     connect_statuses := [];
     wcm_init_status := 0;
     ap_statuses := [5; 6; 8; 0];
     max_tko := 4;
     max_wifi_retry_count := 3 |}.

(** A script whose connection manager fails to initialize. *)
Definition script_wcm_init_fails : script :=
  {| socket_init_status := 0;
     offload_list := Some offloads;
     connect_statuses := [];
     wcm_init_status := 3;
     ap_statuses := [];
     max_tko := 4;
     max_wifi_retry_count := 3 |}.

(** A script for a build with no association attempt allowed. *)
Definition script_no_retry : script :=
  {| socket_init_status := 0;
     offload_list := Some offloads;
     connect_statuses := [];
     wcm_init_status := 0;
     ap_statuses := [];
     max_tko := 4;
     max_wifi_retry_count := 0 |}.

(** A list that its author forgot to end with a sentinel. *)
Definition offloads_unterminated : list ol_desc_t :=
  [ {| name := Some "Pkt_Filter"%string; cfg := None |};
    {| name := Some "ARP"%string; cfg := None |} ].

Definition script_unterminated : script :=
  {| socket_init_status := 0;
     offload_list := Some offloads_unterminated;
     connect_statuses := [];
     wcm_init_status := 0;
     ap_statuses := [];
     max_tko := 4;
     max_wifi_retry_count := 3 |}.

End Stubs.

(* ===================================================================== *)
(** ** Facts about the libc functions *)
(* ===================================================================== *)

Module CStringFacts.

Import CString.

#[local] Arguments Ascii.eqb : simpl never.
#[local] Arguments uchar : simpl never.

Lemma uchar_inj c1 c2 : uchar c1 = uchar c2 -> c1 = c2.
Proof.
  unfold uchar. intros H. apply N2Z.inj in H.
  rewrite <- (ascii_N_embedding c1), <- (ascii_N_embedding c2). now rewrite H.
Qed.

Lemma uchar_diff c1 c2 : Ascii.eqb c1 c2 = false -> uchar c1 - uchar c2 <> 0.
Proof.
  intros H E. apply Ascii.eqb_neq in H. apply H, uchar_inj. lia.
Qed.

Lemma strlen_c_chars s : strlen s = List.length (c_chars s).
Proof.
  induction s as [|c s IH]; simpl; [reflexivity|].
  destruct (Ascii.eqb c NUL); simpl; congruence.
Qed.

Lemma c_chars_nil_char_at s : c_chars s = [] <-> char_at s = NUL.
Proof.
  destruct s as [|c s]; simpl; [tauto|].
  destruct (Ascii.eqb c NUL) eqn:E.
  - apply Ascii.eqb_eq in E. tauto.
  - apply Ascii.eqb_neq in E. split; [discriminate | contradiction].
Qed.

(** [strncmp] over the length of the search name is a prefix test. *)
Lemma strncmp_strlen_zero stored search :
  strncmp stored search (strlen search) = 0 <-> starts_with stored search.
Proof.
  unfold starts_with. revert stored.
  induction search as [|c search IH]; intros stored; simpl.
  - split; [intros _; now exists (c_chars stored) | reflexivity].
  - destruct (Ascii.eqb c NUL) eqn:Ec; simpl.
    + split; [intros _; now exists (c_chars stored) | reflexivity].
    + destruct stored as [|d stored]; simpl.
      * rewrite Ascii.eqb_sym, Ec. simpl. split.
        -- intros H. exfalso.
           apply (uchar_diff NUL c); [now rewrite Ascii.eqb_sym | exact H].
        -- intros [rest H]. discriminate.
      * destruct (Ascii.eqb d c) eqn:Edc; simpl.
        -- apply Ascii.eqb_eq in Edc. subst d. rewrite Ec.
           rewrite IH. split; intros [rest H]; exists rest.
           ++ now rewrite H.
           ++ now injection H.
        -- split.
           ++ intros H. exfalso. revert H. now apply uchar_diff.
           ++ intros [rest H]. apply Ascii.eqb_neq in Edc.
              destruct (Ascii.eqb d NUL); [discriminate|].
              injection H as -> _. contradiction.
Qed.

(** [strcmp] returns 0 exactly on equal C strings. *)
Lemma strcmp_zero s1 s2 : strcmp s1 s2 = 0 <-> c_chars s1 = c_chars s2.
Proof.
  revert s2. induction s1 as [|c1 s1 IH]; intros s2; simpl.
  - destruct s2 as [|c2 s2]; simpl; [tauto|].
    destruct (Ascii.eqb c2 NUL) eqn:E2.
    + apply Ascii.eqb_eq in E2. subst c2. tauto.
    + split; [|discriminate]. intros H. exfalso.
      apply (uchar_diff NUL c2); [now rewrite Ascii.eqb_sym | exact H].
  - destruct (Ascii.eqb c1 (char_at s2)) eqn:E; simpl.
    + apply Ascii.eqb_eq in E. subst c1.
      destruct s2 as [|c2 s2]; simpl in *; [tauto|].
      destruct (Ascii.eqb c2 NUL); [tauto|].
      rewrite IH. split; [now intros -> | now intros [= ->]].
    + split; [intros H; exfalso; revert H; now apply uchar_diff|].
      intros H. exfalso. apply Ascii.eqb_neq in E. apply E.
      destruct s2 as [|c2 s2]; simpl in *.
      * destruct (Ascii.eqb c1 NUL) eqn:E1; [now apply Ascii.eqb_eq | discriminate].
      * destruct (Ascii.eqb c1 NUL) eqn:E1, (Ascii.eqb c2 NUL) eqn:E2;
          try discriminate.
        -- apply Ascii.eqb_eq in E1, E2. congruence.
        -- now injection H.
Qed.

End CStringFacts.

(* ===================================================================== *)
(** ** Facts about lists *)
(* ===================================================================== *)

Module ListFacts.

Import Firmware.

Lemma last_nonempty_default {A : Type} (l : list A) (d d' : A) :
  l <> [] -> last l d = last l d'.
Proof.
  induction l as [|x l IH]; intros Hl; [contradiction|].
  destruct l as [|y l]; [reflexivity|].
  change (last (y :: l) d = last (y :: l) d'). apply IH. discriminate.
Qed.

Lemma last_app_default {A : Type} (a b : list A) (d : A) :
  last (a ++ b) d = last b (last a d).
Proof.
  induction a as [|x a IH]; [reflexivity|].
  destruct a as [|y a].
  - simpl. destruct b as [|z b]; [reflexivity|].
    apply last_nonempty_default. discriminate.
  - change (last (y :: a ++ b) d = last b (last (y :: a) d)). exact IH.
Qed.

Lemma filter_map_pair {A : Type} (f : A -> bool) (l : list A) :
  filter snd (List.map (fun i => (i, f i)) l) = List.map (fun i => (i, f i)) (filter f l).
Proof.
  induction l as [|x l IH]; simpl; [reflexivity|].
  destruct (f x) eqn:E; simpl; rewrite ?E, IH; reflexivity.
Qed.

Lemma filter_map_pair_neg {A : Type} (f : A -> bool) (l : list A) :
  filter (fun st => negb (snd st)) (List.map (fun i => (i, f i)) l) =
  List.map (fun i => (i, f i)) (filter (fun i => negb (f i)) l).
Proof.
  induction l as [|x l IH]; simpl; [reflexivity|].
  destruct (f x) eqn:E; simpl; rewrite ?E, IH; reflexivity.
Qed.

(** Reading an array at every index gives the array. *)
Lemma map_nth_error_seq {A B : Type} (f : A -> B) (default : B) (l : list A) :
  List.map (fun i => match nth_error l i with Some x => f x | None => default end)
      (seq 0 (List.length l)) =
  List.map f l.
Proof.
  induction l as [|x l IH]; simpl; [reflexivity|].
  f_equal. rewrite <- seq_shift, List.map_map. exact IH.
Qed.

Lemma filter_length_map {A : Type} (f : A -> bool) (g : bool -> bool)
    (l : list A) :
  List.length (filter (fun x => g (f x)) l) =
  List.length (filter g (List.map f l)).
Proof.
  induction l as [|x l IH]; simpl; [reflexivity|].
  destruct (g (f x)); simpl; now rewrite IH.
Qed.

Lemma update_length {A : Type} (i : nat) (v : A) (a : list A) :
  List.length (update i v a) = List.length a.
Proof.
  revert i. induction a as [|x a IH]; intros [|i]; simpl; auto.
Qed.

Lemma last_cons_default {A : Type} (x : A) (l : list A) (d : A) :
  last (x :: l) d = last l x.
Proof. apply (last_app_default [x] l d). Qed.

End ListFacts.

(* ===================================================================== *)
(** ** Facts about the descriptor lookup *)
(* ===================================================================== *)

Module LookupFacts.

Import CString Firmware.

Section Lookup.

Context {platform : Platform}.

Lemma first_sentinel_head_unnamed d rest k :
  name d = None -> first_sentinel (d :: rest) k -> k = O.
Proof.
  intros Hd [_ Hbefore]. destruct k as [|k]; [reflexivity|].
  destruct (Hbefore O) as (d' & stored & Hnth & Hname); [lia|].
  simpl in Hnth. injection Hnth as <-. congruence.
Qed.

Lemma first_sentinel_tail d stored rest k :
  name d = Some stored -> first_sentinel (d :: rest) k ->
  exists k', k = S k' /\ first_sentinel rest k'.
Proof.
  intros Hd [(s & Hnth & Hs) Hbefore]. destruct k as [|k].
  - simpl in Hnth. injection Hnth as <-. congruence.
  - exists k. split; [reflexivity|]. split.
    + exists s. now split.
    + intros j Hj. apply (Hbefore (S j)). lia.
Qed.

Lemma matches_at_head d rest search_name :
  matches_at (d :: rest) search_name O <->
  exists stored, name d = Some stored /\ starts_with stored search_name.
Proof.
  unfold matches_at. simpl. split.
  - intros (d' & stored & [= <-] & H1 & H2). now exists stored.
  - intros (stored & H1 & H2). now exists d, stored.
Qed.

Lemma matches_at_tail d rest search_name j :
  matches_at (d :: rest) search_name (S j) <-> matches_at rest search_name j.
Proof. reflexivity. Qed.

(** Where the loop stops on a list that has a sentinel: at the first
    descriptor whose name starts with the search name, or else at the
    sentinel. *)
Lemma scan_stops rest search_name :
  forall position k,
    first_sentinel rest k ->
    exists j,
      scan rest search_name position = Some (position + j)%nat /\
      (j <= k)%nat /\
      (forall i, (i < j)%nat -> ~ matches_at rest search_name i) /\
      ((j < k)%nat -> matches_at rest search_name j).
Proof.
  induction rest as [|d rest IH]; intros position k Hk.
  - destruct Hk as [(d & Hnth & _) _]. destruct k; discriminate.
  - cbn [scan]. destruct (name d) as [stored|] eqn:Hd.
    + destruct (first_sentinel_tail _ _ _ _ Hd Hk) as (k' & -> & Hk').
      destruct (0 =? strncmp stored search_name (strlen search_name)) eqn:Hcmp;
        cbn [negb].
      * apply Z.eqb_eq in Hcmp. symmetry in Hcmp.
        apply CStringFacts.strncmp_strlen_zero in Hcmp.
        exists O. repeat split; try lia.
        -- f_equal. lia.
        -- intros _. apply matches_at_head. now exists stored.
      * apply Z.eqb_neq in Hcmp.
        destruct (IH (S position) k' Hk') as (j & Hscan & Hle & Hno & Hyes).
        exists (S j). repeat split; try lia.
        -- rewrite Hscan. f_equal. lia.
        -- intros [|i] Hi.
           ++ rewrite matches_at_head. intros (stored' & Hs & Hm).
              rewrite Hd in Hs. injection Hs as <-.
              apply CStringFacts.strncmp_strlen_zero in Hm. lia.
           ++ rewrite matches_at_tail. apply Hno. lia.
        -- intros Hj. rewrite matches_at_tail. apply Hyes. lia.
    + rewrite (first_sentinel_head_unnamed _ _ _ Hd Hk).
      exists O. repeat split; try lia. f_equal. lia.
Qed.

(** What lies after the sentinel takes no part in the scan. *)
Lemma scan_ignores_tail rest search_name :
  forall position k tail,
    first_sentinel rest k ->
    scan (firstn (S k) rest ++ tail) search_name position =
    scan rest search_name position.
Proof.
  induction rest as [|d rest IH]; intros position k tail Hk.
  - destruct Hk as [(d & Hnth & _) _]. destruct k; discriminate.
  - cbn [firstn app scan]. destruct (name d) as [stored|] eqn:Hd; [|reflexivity].
    destruct (first_sentinel_tail _ _ _ _ Hd Hk) as (k' & -> & Hk').
    destruct (negb _); [|reflexivity].
    apply (IH (S position) k' tail Hk').
Qed.

(** The function as one case analysis on the list and on the scan. *)
Lemma find_my_tko_descriptor_unfold search_name (m : machine) :
  find_my_tko_descriptor search_name m =
  let m1 := emit Ev_get_default_ol_list m in
  let not_found :=
    Returned None (emit (Err (Unable_to_find_offloads search_name)) m1) in
  match get_default_ol_list (world m) with
  | None => not_found
  | Some ol =>
      match scan ol search_name O with
      | None => OutOfBounds m1
      | Some k =>
          match nth_error ol k with
          | None => OutOfBounds m1
          | Some d =>
              match name d with
              | None => not_found
              | Some _ => Returned (Some {| base := ol; off := k |}) m1
              end
          end
      end
  end.
Proof.
  unfold find_my_tko_descriptor, bind, call_get_default_ol_list,
    scan_offloads_list, deref, ERR_INFO, ret. simpl.
  destruct (get_default_ol_list (world m)) as [ol|]; simpl; [|reflexivity].
  destruct (scan ol search_name O) as [k|]; simpl; [|reflexivity].
  destruct (nth_error ol k) as [d|]; simpl; [|reflexivity].
  destruct (name d); reflexivity.
Qed.

(** When the configurator supplies no list at all, the lookup returns
    NULL. *)
Lemma find_my_tko_descriptor_null_list search_name (m : machine) :
  get_default_ol_list (world m) = None ->
  verdict_of (find_my_tko_descriptor search_name m) = Value None.
Proof.
  intros Hnull. rewrite find_my_tko_descriptor_unfold. cbv zeta.
  now rewrite Hnull.
Qed.

(** The lookup changes nothing but the log. *)
Lemma find_my_tko_descriptor_frame search_name (m : machine) :
  let m' := final (find_my_tko_descriptor search_name m) in
  world m' = world m /\ connect_param m' = connect_param m /\
  ip_addr m' = ip_addr m /\ global_socket m' = global_socket m /\
  exists diagnostics,
    log m' = log m ++ Ev_get_default_ol_list :: diagnostics /\
    calls diagnostics = [].
Proof.
  rewrite find_my_tko_descriptor_unfold. cbv zeta.
  destruct (get_default_ol_list (world m)) as [ol|].
  2: { simpl. repeat split. eexists. rewrite <- app_assoc. simpl. eauto. }
  destruct (scan ol search_name O) as [k|].
  2: { simpl. repeat split. exists []. eauto. }
  destruct (nth_error ol k) as [d|].
  2: { simpl. repeat split. exists []. eauto. }
  destruct (name d); simpl; repeat split.
  - exists []. eauto.
  - eexists. rewrite <- app_assoc. simpl. eauto.
Qed.

(** The verdict of the lookup depends on the list alone. *)
Lemma find_my_tko_descriptor_verdict search_name (m1 m2 : machine) :
  get_default_ol_list (world m1) = get_default_ol_list (world m2) ->
  verdict_of (find_my_tko_descriptor search_name m1) =
  verdict_of (find_my_tko_descriptor search_name m2).
Proof.
  intros H. rewrite !find_my_tko_descriptor_unfold. cbv zeta. rewrite H.
  destruct (get_default_ol_list (world m2)) as [ol|]; [|reflexivity].
  destruct (scan ol search_name O) as [k|]; [|reflexivity].
  destruct (nth_error ol k) as [d|]; [|reflexivity].
  destruct (name d); reflexivity.
Qed.

Lemma nth_error_upto_sentinel (ol tail : list ol_desc_t) k j :
  (j <= k)%nat -> (k < List.length ol)%nat ->
  nth_error (firstn (S k) ol ++ tail) j = nth_error ol j.
Proof.
  intros Hj Hk. rewrite nth_error_app1.
  - rewrite nth_error_firstn.
    destruct (j <? S k)%nat eqn:E; [reflexivity|].
    apply Nat.ltb_ge in E. lia.
  - rewrite length_firstn. lia.
Qed.

Lemma first_sentinel_in_range ol k :
  first_sentinel ol k -> (k < List.length ol)%nat.
Proof.
  intros [(d & Hnth & _) _]. apply nth_error_Some. congruence.
Qed.

Lemma first_sentinel_upto (ol tail : list ol_desc_t) k :
  first_sentinel ol k -> first_sentinel (firstn (S k) ol ++ tail) k.
Proof.
  intros Hk. pose proof (first_sentinel_in_range _ _ Hk) as Hlen.
  destruct Hk as [Hat Hbefore]. split.
  - rewrite nth_error_upto_sentinel by lia. exact Hat.
  - intros j Hj. rewrite nth_error_upto_sentinel by lia. now apply Hbefore.
Qed.

(** The lookup on a list with a sentinel, in terms of the scan. *)
Lemma find_my_tko_descriptor_on_list ol k search_name (m : machine) :
  get_default_ol_list (world m) = Some ol ->
  first_sentinel ol k ->
  exists j,
    scan ol search_name O = Some j /\
    (j <= k)%nat /\
    (forall i, (i < j)%nat -> ~ matches_at ol search_name i) /\
    ((j < k)%nat -> matches_at ol search_name j) /\
    exists m',
      find_my_tko_descriptor search_name m =
      Returned (if (j <? k)%nat then Some {| base := ol; off := j |} else None)
               m'.
Proof.
  intros Hol Hk.
  destruct (scan_stops ol search_name O k Hk) as (j & Hscan & Hle & Hno & Hyes).
  simpl in Hscan. exists j. repeat split; try assumption.
  rewrite find_my_tko_descriptor_unfold. cbv zeta. rewrite Hol, Hscan.
  destruct (j <? k)%nat eqn:Hjk.
  - apply Nat.ltb_lt in Hjk.
    destruct (proj2 Hk j Hjk) as (d & stored & Hnth & Hname).
    rewrite Hnth, Hname. eauto.
  - apply Nat.ltb_ge in Hjk. assert (j = k) as -> by lia.
    destruct (proj1 Hk) as (d & Hnth & Hname).
    rewrite Hnth, Hname. eauto.
Qed.

(** C3.  On a descriptor list that has a sentinel at position [k], for every
    search name, [find_my_tko_descriptor] returns: it returns a pointer to
    the first descriptor before the sentinel whose name starts with the
    search name (comparison over the length of the search name, so a longer
    stored name matches too), and NULL when no descriptor before the
    sentinel matches, an empty list ([k = 0]) included.  It reads nothing
    after the sentinel: on any list that agrees with this one up to the
    sentinel, whatever follows it, even nothing, it returns as well, with
    the same position. *)
Theorem find_my_tko_descriptor_first_prefix_match
    (ol : list ol_desc_t) (k : nat) (search_name : string) (m : machine) :
  get_default_ol_list (world m) = Some ol ->
  first_sentinel ol k ->
  exists found m',
    find_my_tko_descriptor search_name m = Returned found m' /\
    match found with
    | Some p =>
        base p = ol /\ (off p < k)%nat /\
        matches_at ol search_name (off p) /\
        (forall j, (j < off p)%nat -> ~ matches_at ol search_name j)
    | None => forall j, (j < k)%nat -> ~ matches_at ol search_name j
    end /\
    forall (tail : list ol_desc_t) (m2 : machine),
      get_default_ol_list (world m2) = Some (firstn (S k) ol ++ tail) ->
      exists found2 m2',
        find_my_tko_descriptor search_name m2 = Returned found2 m2' /\
        option_map off found2 = option_map off found.
Proof.
  intros Hol Hk.
  destruct (find_my_tko_descriptor_on_list ol k search_name m Hol Hk)
    as (j & Hscan & Hle & Hno & Hyes & m' & Hrun).
  eexists. exists m'. split; [exact Hrun|]. split.
  - destruct (j <? k)%nat eqn:Hjk; simpl.
    + apply Nat.ltb_lt in Hjk. auto.
    + apply Nat.ltb_ge in Hjk. assert (j = k) as -> by lia. exact Hno.
  - intros tail m2 Hol2.
    destruct (find_my_tko_descriptor_on_list _ k search_name m2 Hol2
                (first_sentinel_upto ol tail k Hk))
      as (j2 & Hscan2 & _ & _ & _ & m2' & Hrun2).
    rewrite (scan_ignores_tail ol search_name O k tail Hk) in Hscan2.
    assert (j2 = j) as -> by congruence.
    eexists. exists m2'. split; [exact Hrun2|].
    destruct (j <? k)%nat; reflexivity.
Qed.

(** C9.  The lookup is a function of the search name and of the list: a
    second call, made in the state the first call leaves, gives the same
    result; the first call changes no global and nothing in the world (it
    only adds to the log); and in any state in which the configurator
    supplies the same list the result is the same. *)
Theorem find_my_tko_descriptor_pure (search_name : string) (m : machine) :
  let first := find_my_tko_descriptor search_name m in
  let second := find_my_tko_descriptor search_name (final first) in
  verdict_of second = verdict_of first /\
  (world (final first) = world m /\
   connect_param (final first) = connect_param m /\
   ip_addr (final first) = ip_addr m /\
   global_socket (final first) = global_socket m) /\
  forall m2 : machine,
    get_default_ol_list (world m2) = get_default_ol_list (world m) ->
    verdict_of (find_my_tko_descriptor search_name m2) = verdict_of first.
Proof.
  cbv zeta.
  destruct (find_my_tko_descriptor_frame search_name m)
    as (Hw & Hc & Hi & Hg & _).
  split; [|split].
  - apply find_my_tko_descriptor_verdict. now rewrite Hw.
  - auto.
  - intros m2 H. now apply find_my_tko_descriptor_verdict.
Qed.

End Lookup.

Import Stubs.

Lemma offloads_sentinel : @first_sentinel offloads 2.
Proof.
  split.
  - exists sentinel. split; reflexivity.
  - intros [|[|j]] Hj; [| |lia].
    + do 2 eexists. split; reflexivity.
    + do 2 eexists. split; reflexivity.
Defined.

Lemma find_my_tko_descriptor_first_prefix_match_witness :
  exists found m',
    find_my_tko_descriptor "TKO" (boot script_ok 4) = Returned found m' /\
    option_map off found = Some 1%nat.
Proof.
  destruct (find_my_tko_descriptor_first_prefix_match offloads 2 "TKO"
              (boot script_ok 4) eq_refl offloads_sentinel)
    as (found & m' & Hrun & _).
  exists found, m'. split; [exact Hrun|].
  assert (verdict_of (find_my_tko_descriptor "TKO" (boot script_ok 4)) =
          Value (Some {| base := offloads; off := 1 |})) as Hvalue
      by reflexivity.
  rewrite Hrun in Hvalue. injection Hvalue as ->. reflexivity.
Defined.

Lemma find_my_tko_descriptor_pure_witness :
  verdict_of (find_my_tko_descriptor "TKO" (boot script_ok 0)) =
  verdict_of (find_my_tko_descriptor "TKO" (boot script_ok 4)).
Proof.
  apply (find_my_tko_descriptor_pure "TKO" (boot script_ok 4)).
  reflexivity.
Defined.

(** A search name that is a proper prefix of a stored name finds the
    descriptor with the longer name, here ahead of the exact one. *)
Example lookup_longer_name :
  let s :=
    {| socket_init_status := 0;
       offload_list := Some offloads_longer_name;
       connect_statuses := [];
       wcm_init_status := 0;
       ap_statuses := [];
       max_tko := 4;
       max_wifi_retry_count := 3 |} in
  verdict_of (find_my_tko_descriptor "TKO" (boot s 4)) =
  Value (Some {| base := offloads_longer_name; off := 0 |}).
Proof. reflexivity. Qed.

End LookupFacts.

(* ===================================================================== *)
(** ** Facts about [tcp_socket_connection_start] *)
(* ===================================================================== *)

Module ConnectFacts.

Import CString Firmware ListFacts.

Section Connect.

Context {platform : Platform}.

(** *** Logs *)

Lemma slot_steps_app (a b : list event) :
  slot_steps (a ++ b) = slot_steps a ++ slot_steps b.
Proof.
  induction a as [|e a IH]; [reflexivity|].
  destruct e as [| | | | | | |msg]; simpl; try exact IH; try now rewrite IH.
  destruct msg; simpl; try exact IH. now rewrite IH.
Qed.

Lemma connect_attempts_app (a b : list event) :
  connect_attempts (a ++ b) = connect_attempts a ++ connect_attempts b.
Proof.
  induction a as [|e a IH]; [reflexivity|].
  destruct e; simpl; try exact IH. now rewrite IH.
Qed.

(** The connect attempts of a log are its slot steps that are attempts. *)
Lemma connect_attempts_slots (evs : list event) :
  List.map fst (connect_attempts evs) = List.map fst (filter snd (slot_steps evs)).
Proof.
  induction evs as [|e evs IH]; [reflexivity|].
  destruct e as [| | | | | | |msg]; simpl; try exact IH; try now rewrite IH.
  destruct msg; simpl; exact IH.
Qed.

Lemma failures_app (a b : list cy_rslt_t) :
  failures (a ++ b) = failures a ++ failures b.
Proof. apply List.filter_app. Qed.

Lemma failures_none (statuses : list cy_rslt_t) :
  failures statuses = [] <-> forall s, In s statuses -> s = CY_RSLT_SUCCESS.
Proof.
  unfold failures. induction statuses as [|s statuses IH]; simpl.
  - split; [intros _ s [] | reflexivity].
  - destruct (CY_RSLT_SUCCESS =? s) eqn:E; simpl.
    + apply Z.eqb_eq in E. rewrite IH. split.
      * intros H s' [<-|Hin]; auto.
      * intros H s' Hin. apply H. now right.
    + apply Z.eqb_neq in E. split; [discriminate|].
      intros H. exfalso. apply E. symmetry. apply H. now left.
Qed.

Lemma last_failure_is_failure (statuses : list cy_rslt_t) :
  failures statuses <> [] ->
  last (failures statuses) CY_RSLT_SUCCESS <> CY_RSLT_SUCCESS.
Proof.
  intros Hne Hlast.
  destruct (exists_last Hne) as (front & s & Heq).
  rewrite Heq, last_last in Hlast.
  assert (In s (failures statuses)) as Hin
      by (rewrite Heq; apply in_or_app; right; now left).
  apply List.filter_In in Hin. destruct Hin as [_ Hs].
  apply negb_true_iff, Z.eqb_neq in Hs. congruence.
Qed.

(** The condition of line 211 says that the binding is active. *)
Lemma is_configured_active (port : cy_tko_ol_connect_t) :
  is_configured port = true <-> active port.
Proof.
  unfold is_configured, active.
  rewrite !andb_true_iff, negb_true_iff, !Z.ltb_lt, Z.eqb_neq,
    CStringFacts.strcmp_zero.
  intuition lia.
Qed.

(** *** The loop over the slots *)

Lemma connect_slot_run netif downloaded index status (m : machine) port :
  nth_error (ports downloaded) index = Some port ->
  (index < List.length (global_socket m))%nat ->
  exists status' m' evs,
    connect_slot netif downloaded index status m = Returned status' m' /\
    log m' = log m ++ evs /\
    List.length (global_socket m') = List.length (global_socket m) /\
    slot_steps evs = [(index, is_configured port)] /\
    status' = last (failures (List.map snd (connect_attempts evs))) status.
Proof.
  intros Hport Hindex.
  unfold connect_slot, bind, read_port. rewrite Hport.
  destruct (is_configured port).
  - unfold call_cy_tcp_create_socket_connection.
    destruct (nth_error (global_socket m) index) as [slot|] eqn:Hslot.
    2: { apply nth_error_None in Hslot. lia. }
    destruct (cy_tcp_create_socket_connection (world m) netif slot
                (remote_ip port) (remote_port port) (local_port port)
                downloaded ENABLE_HOST_TCP_KEEPALIVE)
      as [[result slot'] w].
    destruct (CY_RSLT_SUCCESS =? result) eqn:Hresult; cbn [negb].
    + do 3 eexists. split; [reflexivity|]. cbn [log emit].
      rewrite <- app_assoc. split; [reflexivity|].
      split; [apply update_length|]. split; [reflexivity|].
      cbn. unfold failures. cbn. now rewrite Hresult.
    + do 3 eexists. split; [reflexivity|]. cbn [log emit].
      rewrite <- app_assoc. split; [reflexivity|].
      split; [apply update_length|]. split; [reflexivity|].
      cbn. unfold failures. cbn. now rewrite Hresult.
  - do 3 eexists. split; [reflexivity|]. cbn [log emit].
    repeat split; reflexivity.
Qed.

Lemma connect_loop_run netif downloaded :
  forall remaining index status (m : machine),
    (index + remaining <= List.length (ports downloaded))%nat ->
    (index + remaining <= List.length (global_socket m))%nat ->
    exists status' m' evs,
      connect_loop remaining netif downloaded index status m =
      Returned status' m' /\
      log m' = log m ++ evs /\
      List.length (global_socket m') = List.length (global_socket m) /\
      slot_steps evs =
      List.map (fun i => (i, configured_at downloaded i)) (seq index remaining) /\
      status' = last (failures (List.map snd (connect_attempts evs))) status.
Proof.
  induction remaining as [|remaining IH]; intros index status m Hports Hslots.
  - exists status, m, []. rewrite app_nil_r. repeat split; reflexivity.
  - destruct (nth_error (ports downloaded) index) as [port|] eqn:Hport.
    2: { apply nth_error_None in Hport. lia. }
    destruct (connect_slot_run netif downloaded index status m port Hport)
      as (status1 & m1 & evs1 & Hrun1 & Hlog1 & Hlen1 & Hsteps1 & Hstatus1);
      [lia|].
    destruct (IH (S index) status1 m1) as
      (status2 & m2 & evs2 & Hrun2 & Hlog2 & Hlen2 & Hsteps2 & Hstatus2);
      [lia | lia |].
    exists status2, m2, (evs1 ++ evs2).
    cbn [connect_loop]. unfold bind at 1. rewrite Hrun1.
    split; [exact Hrun2|].
    split; [now rewrite Hlog2, Hlog1, app_assoc|].
    split; [congruence|].
    split.
    + rewrite slot_steps_app, Hsteps1, Hsteps2. cbn [seq List.map app].
      unfold configured_at at 2. now rewrite Hport.
    + rewrite connect_attempts_app, List.map_app, failures_app, last_app_default.
      now rewrite <- Hstatus1.
Qed.

(** *** The function *)

(** The lookup made by [tcp_socket_connection_start], after a successful
    initialization: it depends on the world that [cy_socket_init] leaves. *)
Lemma lookup_found (m1 m2 : machine) search_name p :
  world m2 = world m1 ->
  verdict_of (find_my_tko_descriptor search_name m1) = Value (Some p) ->
  find_my_tko_descriptor search_name m2 =
  Returned (Some p) (emit Ev_get_default_ol_list m2).
Proof.
  intros Hw. rewrite !LookupFacts.find_my_tko_descriptor_unfold. cbv zeta.
  rewrite Hw.
  destruct (get_default_ol_list (world m1)) as [ol|]; [|discriminate].
  destruct (scan ol search_name O) as [k|]; [|discriminate].
  destruct (nth_error ol k) as [d|]; [|discriminate].
  destruct (name d); [|discriminate].
  simpl. now intros [= <-].
Qed.

Lemma lookup_not_found (m1 m2 : machine) search_name :
  world m2 = world m1 ->
  verdict_of (find_my_tko_descriptor search_name m1) = Value None ->
  find_my_tko_descriptor search_name m2 =
  Returned None
    (emit (Err (Unable_to_find_offloads search_name))
       (emit Ev_get_default_ol_list m2)).
Proof.
  intros Hw. rewrite !LookupFacts.find_my_tko_descriptor_unfold. cbv zeta.
  rewrite Hw.
  destruct (get_default_ol_list (world m1)) as [ol|]; [|reflexivity].
  destruct (scan ol search_name O) as [k|]; [|discriminate].
  destruct (nth_error ol k) as [d|]; [|discriminate].
  destruct (name d); [discriminate | reflexivity].
Qed.

Lemma start_after_init (m : machine) :
  fst (cy_socket_init (world m)) = CY_RSLT_SUCCESS ->
  tcp_socket_connection_start m =
  bind (find_my_tko_descriptor TCP_KEEPALIVE_OFFLOAD)
    (fun offload_list =>
       match offload_list with
       | None =>
           bind (ERR_INFO Offload_configuration_not_found)
             (fun _ => ret CY_RSLT_TYPE_ERROR)
       | Some p =>
           bind (deref p)
             (fun d =>
                match cfg d with
                | Some downloaded =>
                    bind (APP_INFO Taking_configuration)
                      (fun _ =>
                         connect_loop MAX_TKO
                           (cy_lwip_get_interface (world m)
                              CY_LWIP_STA_NW_INTERFACE)
                           downloaded O CY_RSLT_SUCCESS)
                | None =>
                    bind (ERR_INFO Offload_descriptor_not_found)
                      (fun _ => ret CY_RSLT_TYPE_ERROR)
                end)
       end)
    (initialized m).
Proof.
  intros Hinit. unfold tcp_socket_connection_start, initialized.
  unfold bind at 1. unfold call_cy_lwip_get_interface.
  unfold bind at 1. unfold call_cy_socket_init. cbn [world emit].
  destruct (cy_socket_init (world m)) as [result w]. simpl in Hinit. subst.
  unfold bind at 1. unfold PRINT_AND_ASSERT. rewrite Z.eqb_refl.
  reflexivity.
Qed.

Lemma initialized_world (m : machine) :
  world (initialized m) = snd (cy_socket_init (world m)).
Proof.
  unfold initialized. now destruct (cy_socket_init (world m)).
Qed.

Lemma initialized_global_socket (m : machine) :
  global_socket (initialized m) = global_socket m.
Proof.
  unfold initialized. now destruct (cy_socket_init (world m)).
Qed.

Lemma initialized_log (m : machine) :
  log (initialized m) =
  log m ++ [Ev_cy_lwip_get_interface CY_LWIP_STA_NW_INTERFACE;
            Ev_cy_socket_init (fst (cy_socket_init (world m)))].
Proof.
  unfold initialized. destruct (cy_socket_init (world m)). cbn.
  now rewrite <- app_assoc.
Qed.

(** The run of the function when the lookup finds a descriptor with a
    configuration. *)
Lemma start_run (m : machine) p d downloaded :
  fst (cy_socket_init (world m)) = CY_RSLT_SUCCESS ->
  verdict_of (find_my_tko_descriptor TCP_KEEPALIVE_OFFLOAD (initialized m)) =
  Value (Some p) ->
  nth_error (base p) (off p) = Some d ->
  cfg d = Some downloaded ->
  List.length (ports downloaded) = MAX_TKO ->
  List.length (global_socket m) = MAX_TKO ->
  exists status m' evs,
    tcp_socket_connection_start m = Returned status m' /\
    log m' = log m ++ evs /\
    slot_steps evs =
    List.map (fun i => (i, configured_at downloaded i)) (seq 0 MAX_TKO) /\
    status = last (failures (List.map snd (connect_attempts evs))) CY_RSLT_SUCCESS.
Proof.
  intros Hinit Hfound Hd Hcfg Hports Hslots.
  rewrite (start_after_init m Hinit).
  unfold bind at 1.
  rewrite (lookup_found (initialized m) (initialized m) _ p eq_refl Hfound).
  unfold bind at 1. unfold deref. rewrite Hd, Hcfg.
  unfold bind at 1. unfold APP_INFO.
  destruct (connect_loop_run
              (cy_lwip_get_interface (world m) CY_LWIP_STA_NW_INTERFACE)
              downloaded MAX_TKO O CY_RSLT_SUCCESS
              (emit (Info Taking_configuration)
                 (emit Ev_get_default_ol_list (initialized m))))
    as (status & m' & evs & Hrun & Hlog & _ & Hsteps & Hstatus).
  { simpl. lia. }
  { cbn [global_socket emit]. rewrite initialized_global_socket. simpl. lia. }
  exists status, m',
    ([Ev_cy_lwip_get_interface CY_LWIP_STA_NW_INTERFACE;
      Ev_cy_socket_init (fst (cy_socket_init (world m)));
      Ev_get_default_ol_list; Info Taking_configuration] ++ evs).
  split; [exact Hrun|]. split.
  - rewrite Hlog. cbn [log emit]. rewrite initialized_log.
    now rewrite <- !app_assoc.
  - split.
    + rewrite slot_steps_app. exact Hsteps.
    + rewrite connect_attempts_app. exact Hstatus.
Qed.

(** C1.  When initialization succeeds and the lookup finds a descriptor
    with a configuration, [tcp_socket_connection_start] returns; a connect
    was attempted on each configured binding, once and in order; the status
    returned is success if and only if every attempt gave success; and it
    is the status of the last attempt that failed, whatever attempts
    succeeded after it (success when none failed, in particular when no
    binding is configured). *)
Theorem tcp_socket_connection_start_status (m : machine) p d downloaded :
  fst (cy_socket_init (world m)) = CY_RSLT_SUCCESS ->
  verdict_of (find_my_tko_descriptor TCP_KEEPALIVE_OFFLOAD (initialized m)) =
  Value (Some p) ->
  nth_error (base p) (off p) = Some d ->
  cfg d = Some downloaded ->
  List.length (ports downloaded) = MAX_TKO ->
  List.length (global_socket m) = MAX_TKO ->
  exists status m' evs,
    tcp_socket_connection_start m = Returned status m' /\
    log m' = log m ++ evs /\
    List.map fst (connect_attempts evs) =
    filter (configured_at downloaded) (seq 0 MAX_TKO) /\
    (status = CY_RSLT_SUCCESS <->
     forall i s, In (i, s) (connect_attempts evs) -> s = CY_RSLT_SUCCESS) /\
    status = last (failures (List.map snd (connect_attempts evs))) CY_RSLT_SUCCESS.
Proof.
  intros Hinit Hfound Hd Hcfg Hports Hslots.
  destruct (start_run m p d downloaded Hinit Hfound Hd Hcfg Hports Hslots)
    as (status & m' & evs & Hrun & Hlog & Hsteps & Hstatus).
  exists status, m', evs.
  split; [exact Hrun|]. split; [exact Hlog|]. split; [|split].
  - rewrite connect_attempts_slots, Hsteps, filter_map_pair, List.map_map.
    apply List.map_id.
  - destruct (failures (List.map snd (connect_attempts evs))) as [|f fs] eqn:Hf.
    + subst status. split; [|reflexivity]. intros _ i s Hin.
      apply (proj1 (failures_none _) Hf). apply (List.in_map snd) in Hin. exact Hin.
    + split.
      * intros Hs. exfalso.
        apply (last_failure_is_failure (List.map snd (connect_attempts evs)));
          [rewrite Hf; discriminate | congruence].
      * intros Hall. exfalso.
        assert (failures (List.map snd (connect_attempts evs)) = []) as Hnone.
        { apply failures_none. intros s Hin. apply List.in_map_iff in Hin.
          destruct Hin as ([i s'] & <- & Hin). exact (Hall i s' Hin). }
        congruence.
  - exact Hstatus.
Qed.

(** C2.  When initialization succeeds and the lookup finds a descriptor
    with a configuration of [MAX_TKO] bindings, the function takes the slots
    in the order 0 .. [MAX_TKO - 1], each once: it attempts a connect on
    slot [i] when binding [i] is configured and skips the slot otherwise.
    So [N] connects are attempted and [M] slots skipped, [N] and [M] being
    the numbers of configured and of other bindings, whatever statuses the
    attempts give: a failure stops nothing.  A binding is configured exactly
    when both ports are positive and the address is not the no-address
    value. *)
Theorem tcp_socket_connection_start_slots (m : machine) p d downloaded :
  fst (cy_socket_init (world m)) = CY_RSLT_SUCCESS ->
  verdict_of (find_my_tko_descriptor TCP_KEEPALIVE_OFFLOAD (initialized m)) =
  Value (Some p) ->
  nth_error (base p) (off p) = Some d ->
  cfg d = Some downloaded ->
  List.length (ports downloaded) = MAX_TKO ->
  List.length (global_socket m) = MAX_TKO ->
  exists status m' evs,
    tcp_socket_connection_start m = Returned status m' /\
    log m' = log m ++ evs /\
    slot_steps evs =
    combine (seq 0 MAX_TKO) (List.map is_configured (ports downloaded)) /\
    List.length (connect_attempts evs) =
    List.length (filter is_configured (ports downloaded)) /\
    List.length (filter (fun st => negb (snd st)) (slot_steps evs)) =
    List.length (filter (fun port => negb (is_configured port))
                   (ports downloaded)) /\
    forall port, is_configured port = true <-> active port.
Proof.
  intros Hinit Hfound Hd Hcfg Hports Hslots.
  destruct (start_run m p d downloaded Hinit Hfound Hd Hcfg Hports Hslots)
    as (status & m' & evs & Hrun & Hlog & Hsteps & Hstatus).
  assert (List.map (configured_at downloaded) (seq 0 MAX_TKO) =
          List.map is_configured (ports downloaded)) as Hconf.
  { rewrite <- Hports. apply (map_nth_error_seq is_configured false). }
  assert (slot_steps evs =
          combine (seq 0 MAX_TKO) (List.map is_configured (ports downloaded)))
    as Hcombine.
  { rewrite Hsteps, <- Hconf. clear.
    induction (seq 0 MAX_TKO) as [|i l IH]; simpl; [reflexivity|].
    now rewrite IH. }
  exists status, m', evs.
  split; [exact Hrun|]. split; [exact Hlog|]. split; [exact Hcombine|].
  split; [|split].
  - rewrite <- (List.length_map fst), connect_attempts_slots, List.length_map.
    rewrite Hsteps, filter_map_pair, List.length_map.
    rewrite (filter_length_map (configured_at downloaded) (fun b => b)).
    rewrite Hconf.
    now rewrite <- (filter_length_map is_configured (fun b => b)).
  - rewrite Hsteps, filter_map_pair_neg, List.length_map.
    rewrite (filter_length_map (configured_at downloaded) negb).
    rewrite Hconf.
    now rewrite <- (filter_length_map is_configured negb).
  - apply is_configured_active.
Qed.

(** C4.  When initialization succeeds and the lookup either finds no
    descriptor or finds one whose configuration is NULL, the function
    returns [CY_RSLT_TYPE_ERROR], attempts no connect and leaves every slot
    of [global_socket] as it was. *)
Theorem tcp_socket_connection_start_configuration_missing (m : machine) :
  fst (cy_socket_init (world m)) = CY_RSLT_SUCCESS ->
  let lookup :=
    verdict_of (find_my_tko_descriptor TCP_KEEPALIVE_OFFLOAD (initialized m)) in
  (lookup = Value None \/
   exists p d,
     lookup = Value (Some p) /\
     nth_error (base p) (off p) = Some d /\ cfg d = None) ->
  exists m' evs,
    tcp_socket_connection_start m = Returned CY_RSLT_TYPE_ERROR m' /\
    log m' = log m ++ evs /\
    connect_attempts evs = [] /\
    global_socket m' = global_socket m.
Proof.
  intros Hinit lookup Hmissing. subst lookup.
  rewrite (start_after_init m Hinit). unfold bind at 1.
  destruct Hmissing as [Hnone | (p & d & Hfound & Hd & Hcfg)].
  - rewrite (lookup_not_found (initialized m) (initialized m) _ eq_refl Hnone).
    do 2 eexists. split; [reflexivity|]. cbn [log emit global_socket].
    rewrite initialized_log, initialized_global_socket, <- !app_assoc.
    repeat split; reflexivity.
  - rewrite (lookup_found (initialized m) (initialized m) _ p eq_refl Hfound).
    unfold bind at 1. unfold deref. rewrite Hd, Hcfg.
    do 2 eexists. split; [reflexivity|]. cbn [log emit global_socket].
    rewrite initialized_log, initialized_global_socket, <- !app_assoc.
    repeat split; reflexivity.
Qed.

(** C7.  When [cy_socket_init] returns a status other than success, the
    function stops at the assertion with that status: it has called
    [cy_lwip_get_interface] and [cy_socket_init], once each, and printed the
    failure; it has made no lookup and no connect attempt, and
    [global_socket] is as it was. *)
Theorem tcp_socket_connection_start_init_failure (m : machine) :
  let status := fst (cy_socket_init (world m)) in
  status <> CY_RSLT_SUCCESS ->
  exists m',
    tcp_socket_connection_start m = Halted status m' /\
    log m' =
    log m ++ [Ev_cy_lwip_get_interface CY_LWIP_STA_NW_INTERFACE;
              Ev_cy_socket_init status;
              Err (Socket_initialization_failed status)] /\
    global_socket m' = global_socket m.
Proof.
  intros status Hfail. subst status.
  unfold tcp_socket_connection_start.
  unfold bind at 1. unfold call_cy_lwip_get_interface.
  unfold bind at 1. unfold call_cy_socket_init. cbn [world emit].
  destruct (cy_socket_init (world m)) as [result w]. simpl in Hfail.
  unfold bind at 1. unfold PRINT_AND_ASSERT.
  destruct (CY_RSLT_SUCCESS =? result) eqn:E.
  - apply Z.eqb_eq in E. congruence.
  - eexists. split; [reflexivity|]. cbn. rewrite <- !app_assoc.
    split; reflexivity.
Qed.

End Connect.

Import Stubs.

Lemma tcp_socket_connection_start_status_witness :
  exists m' evs,
    tcp_socket_connection_start (boot script_ok 4) = Returned 7 m' /\
    connect_attempts evs = [(0%nat, 0); (2%nat, 7)].
Proof.
  destruct (tcp_socket_connection_start_status (boot script_ok 4)
              {| base := offloads; off := 1 |}
              {| name := Some "TKO"%string; cfg := Some tko_cfg |} tko_cfg
              eq_refl eq_refl eq_refl eq_refl eq_refl eq_refl)
    as (status & m' & evs & Hrun & Hlog & _).
  exists m', evs.
  assert (verdict_of (tcp_socket_connection_start (boot script_ok 4)) =
          Value 7) as Hvalue by reflexivity.
  assert (m' = final (tcp_socket_connection_start (boot script_ok 4))) as Hm
      by (rewrite Hrun; reflexivity).
  rewrite Hrun in Hvalue. injection Hvalue as ->.
  split; [exact Hrun|].
  change (log m' = evs) in Hlog. subst evs. rewrite Hm. reflexivity.
Defined.

Lemma tcp_socket_connection_start_slots_witness :
  exists status m' evs,
    tcp_socket_connection_start (boot script_ok 4) = Returned status m' /\
    slot_steps evs = [(0, true); (1, false); (2, true); (3, false)]%nat.
Proof.
  destruct (tcp_socket_connection_start_slots (boot script_ok 4)
              {| base := offloads; off := 1 |}
              {| name := Some "TKO"%string; cfg := Some tko_cfg |} tko_cfg
              eq_refl eq_refl eq_refl eq_refl eq_refl eq_refl)
    as (status & m' & evs & Hrun & _ & Hsteps & _).
  exists status, m', evs. split; [exact Hrun | exact Hsteps].
Defined.

Lemma tcp_socket_connection_start_configuration_missing_witness :
  exists m' evs,
    tcp_socket_connection_start (boot script_no_cfg 4) = Returned 2 m' /\
    log m' = evs /\
    connect_attempts evs = [] /\
    global_socket m' = repeat None 4.
Proof.
  apply (tcp_socket_connection_start_configuration_missing
           (boot script_no_cfg 4) eq_refl).
  right. exists {| base := offloads_no_cfg; off := 0 |}.
  exists {| name := Some "TKO"%string; cfg := None |}.
  repeat split; reflexivity.
Defined.

Lemma tcp_socket_connection_start_init_failure_witness :
  exists m',
    tcp_socket_connection_start (boot script_init_fails 4) = Halted 9 m' /\
    log m' =
    [Ev_cy_lwip_get_interface CY_LWIP_STA_NW_INTERFACE;
     Ev_cy_socket_init 9;
     Err (Socket_initialization_failed 9)] /\
    global_socket m' = repeat None 4.
Proof.
  apply (tcp_socket_connection_start_init_failure (boot script_init_fails 4)).
  discriminate.
Defined.

End ConnectFacts.

(* ===================================================================== *)
(** ** Facts about [wifi_connect] *)
(* ===================================================================== *)

Module WifiFacts.

Import Firmware ListFacts.

Section Wifi.

Context {platform : Platform}.

Lemma calls_app (a b : list event) : calls (a ++ b) = calls a ++ calls b.
Proof. apply List.filter_app. Qed.

Lemma association_attempts_app (a b : list event) :
  association_attempts (a ++ b) =
  association_attempts a ++ association_attempts b.
Proof.
  induction a as [|e a IH]; [reflexivity|].
  destruct e; simpl; try exact IH. now rewrite IH.
Qed.

Lemma calls_failed_attempts params (statuses : list cy_rslt_t) :
  calls (flat_map (failed_attempt params) statuses) =
  List.map (Ev_cy_wcm_connect_ap params) statuses.
Proof.
  induction statuses as [|s statuses IH]; [reflexivity|].
  simpl. now rewrite <- IH.
Qed.

Lemma association_attempts_failed params (statuses : list cy_rslt_t) :
  association_attempts (flat_map (failed_attempt params) statuses) = statuses.
Proof.
  induction statuses as [|s statuses IH]; [reflexivity|].
  simpl. now rewrite IH.
Qed.

Create Rewrite HintDb log.
#[local] Hint Rewrite calls_app association_attempts_app
  calls_failed_attempts association_attempts_failed : log.

Lemma attempt_status_S params w a j :
  attempt_status params w a (S j) =
  attempt_status params
    (snd (cy_wcm_connect_ap w params a))
    (snd (fst (cy_wcm_connect_ap w params a))) j.
Proof.
  unfold attempt_status. cbn [after_attempts].
  now destruct (cy_wcm_connect_ap w params a) as [[r a'] w'].
Qed.

Lemma after_attempts_S params w a n :
  after_attempts (S n) params w a =
  after_attempts n params
    (snd (cy_wcm_connect_ap w params a))
    (snd (fst (cy_wcm_connect_ap w params a))).
Proof.
  cbn [after_attempts].
  now destruct (cy_wcm_connect_ap w params a) as [[r a'] w'].
Qed.

Lemma statuses_S params w a n :
  List.map (attempt_status params w a) (seq 0 (S n)) =
  fst (fst (cy_wcm_connect_ap w params a)) ::
  List.map (attempt_status params
              (snd (cy_wcm_connect_ap w params a))
              (snd (fst (cy_wcm_connect_ap w params a))))
           (seq 0 n).
Proof.
  cbn [seq List.map]. f_equal.
  rewrite <- seq_shift, List.map_map. apply List.map_ext.
  intros j. apply attempt_status_S.
Qed.

(** The loop goes through a run of failed attempts: after [n] of them it
    is where it started, with [n] more in [retry_count] and the collaborator
    [n] calls further. *)
Lemma connect_ap_loop_failures :
  forall n rest retry_count result (m : machine),
    (forall j, (j < n)%nat ->
       attempt_status (connect_param m) (world m) (ip_addr m) j <>
       CY_RSLT_SUCCESS) ->
    let statuses :=
      List.map (attempt_status (connect_param m) (world m) (ip_addr m))
        (seq 0 n) in
    exists m1,
      connect_ap_loop (n + rest) retry_count result m =
      connect_ap_loop rest (retry_count + n) (last statuses result) m1 /\
      log m1 = log m ++ flat_map (failed_attempt (connect_param m)) statuses /\
      (world m1, ip_addr m1) =
      after_attempts n (connect_param m) (world m) (ip_addr m) /\
      connect_param m1 = connect_param m /\
      global_socket m1 = global_socket m.
Proof.
  induction n as [|n IH]; intros rest retry_count result m Hfail statuses.
  - exists m. subst statuses. cbn. rewrite Nat.add_0_r, app_nil_r.
    repeat split; reflexivity.
  - subst statuses. rewrite statuses_S, after_attempts_S.
    pose proof (Hfail O ltac:(lia)) as Hfirst.
    unfold attempt_status in Hfirst. cbn [after_attempts] in Hfirst.
    assert (forall j, (j < n)%nat ->
              attempt_status (connect_param m)
                (snd (cy_wcm_connect_ap (world m) (connect_param m) (ip_addr m)))
                (snd (fst (cy_wcm_connect_ap (world m) (connect_param m)
                             (ip_addr m)))) j <> CY_RSLT_SUCCESS) as Hrest.
    { intros j Hj. rewrite <- attempt_status_S. apply Hfail. lia. }
    cbn [Nat.add connect_ap_loop]. unfold bind at 1.
    unfold call_cy_wcm_connect_ap.
    destruct (cy_wcm_connect_ap (world m) (connect_param m) (ip_addr m))
      as [[r a'] w'].
    cbn [fst snd] in *.
    destruct (CY_RSLT_SUCCESS =? r) eqn:Hr.
    { apply Z.eqb_eq in Hr. congruence. }
    unfold bind at 1. unfold ERR_INFO.
    destruct (IH rest (S retry_count) r
                (emit (Err Failed_to_join)
                   (emit (Ev_cy_wcm_connect_ap (connect_param m) r)
                      (set_ip_addr a' (set_world w' m)))))
      as (m1 & Hrun & Hlog & Hafter & Hparam & Hslots).
    { exact Hrest. }
    exists m1. cbn [connect_param world ip_addr emit set_ip_addr set_world log
                    global_socket] in *.
    split.
    + rewrite Hrun, last_cons_default. f_equal. lia.
    + split; [|auto].
      rewrite Hlog. cbn [flat_map failed_attempt]. rewrite <- !app_assoc.
      reflexivity.
Qed.

(** The machine in which the loop starts, after a successful call to
    [cy_wcm_init] that leaves the world [w]. *)
Lemma wifi_connect_after_init (m : machine) :
  let config := {| interface := CY_WCM_INTERFACE_TYPE_STA |} in
  fst (cy_wcm_init (world m) config) = CY_RSLT_SUCCESS ->
  exists m0,
    wifi_connect m =
    connect_ap_loop MAX_WIFI_RETRY_COUNT O CY_RSLT_SUCCESS m0 /\
    log m0 =
    log m ++ [Ev_cy_wcm_init config CY_RSLT_SUCCESS;
              Info Wifi_initialization_successful;
              Info (Join_to_AP WIFI_SSID)] /\
    world m0 = snd (cy_wcm_init (world m) config) /\
    ip_addr m0 = ip_addr m /\
    connect_param m0 = configured_params /\
    global_socket m0 = global_socket m.
Proof.
  intros config Hinit. unfold wifi_connect. fold config.
  unfold bind at 1. unfold call_cy_wcm_init.
  destruct (cy_wcm_init (world m) config) as [result w].
  cbn [fst snd] in *. subst result. rewrite Z.eqb_refl.
  eexists. split; [reflexivity|]. cbn. rewrite <- !app_assoc.
  repeat split; reflexivity.
Qed.

Lemma after_attempts_last params w a n :
  after_attempts (S n) params w a =
  let '(wn, an) := after_attempts n params w a in
  let '(_, a', w') := cy_wcm_connect_ap wn params an in
  (w', a').
Proof.
  revert w a. induction n as [|n IH]; intros w a.
  - reflexivity.
  - rewrite after_attempts_S, IH, (after_attempts_S params w a n).
    reflexivity.
Qed.

Lemma statuses_last (status_of : nat -> cy_rslt_t) n d :
  last (List.map status_of (seq 0 (S n))) d = status_of n.
Proof.
  rewrite seq_S, List.map_app. apply last_last.
Qed.

(** C5.  After a successful [cy_wcm_init], with the association attempts
    numbered from 1: if attempts 1 .. K-1 fail and attempt K succeeds, for
    some K between 1 and [MAX_WIFI_RETRY_COUNT], then [wifi_connect] returns
    success, its calls are the initialization and then exactly these K
    attempts and nothing else, and [ip_addr] holds what attempt K wrote.
    If all of the first [MAX_WIFI_RETRY_COUNT] attempts fail, its calls are
    the initialization and exactly these attempts, and, when there is at
    least one, it returns the status of the last, which is a failure. *)
Theorem wifi_connect_retries (m : machine) :
  let config := {| interface := CY_WCM_INTERFACE_TYPE_STA |} in
  let w := snd (cy_wcm_init (world m) config) in
  let status_of := attempt_status configured_params w (ip_addr m) in
  let attempts K :=
    List.map (Ev_cy_wcm_connect_ap configured_params)
      (List.map status_of (seq 0 K)) in
  fst (cy_wcm_init (world m) config) = CY_RSLT_SUCCESS ->
  (forall K,
     (1 <= K <= MAX_WIFI_RETRY_COUNT)%nat ->
     (forall j, (j < K - 1)%nat -> status_of j <> CY_RSLT_SUCCESS) ->
     status_of (K - 1)%nat = CY_RSLT_SUCCESS ->
     exists m' evs,
       wifi_connect m = Returned CY_RSLT_SUCCESS m' /\
       log m' = log m ++ evs /\
       calls evs = Ev_cy_wcm_init config CY_RSLT_SUCCESS :: attempts K /\
       List.length (association_attempts evs) = K /\
       (world m', ip_addr m') =
       after_attempts K configured_params w (ip_addr m)) /\
  ((forall j, (j < MAX_WIFI_RETRY_COUNT)%nat ->
      status_of j <> CY_RSLT_SUCCESS) ->
   exists status m' evs,
     wifi_connect m = Returned status m' /\
     log m' = log m ++ evs /\
     calls evs =
     Ev_cy_wcm_init config CY_RSLT_SUCCESS :: attempts MAX_WIFI_RETRY_COUNT /\
     List.length (association_attempts evs) = MAX_WIFI_RETRY_COUNT /\
     ((0 < MAX_WIFI_RETRY_COUNT)%nat ->
      status = status_of (MAX_WIFI_RETRY_COUNT - 1)%nat /\
      status <> CY_RSLT_SUCCESS)).
Proof.
  intros config w status_of attempts Hinit.
  destruct (wifi_connect_after_init m Hinit)
    as (m0 & Hstart & Hlog0 & Hw0 & Hip0 & Hparam0 & _).
  fold config in Hlog0, Hw0. fold w in Hw0.
  split.
  - intros K HK Hfail Hok.
    destruct K as [|n]; [lia|].
    replace (S n - 1)%nat with n in * by lia.
    destruct (connect_ap_loop_failures n
                (S (MAX_WIFI_RETRY_COUNT - S n)) O CY_RSLT_SUCCESS m0)
      as (m1 & Hrun & Hlog1 & Hafter & Hparam1 & _).
    { rewrite Hparam0, Hw0, Hip0. exact Hfail. }
    rewrite Hparam0, Hw0, Hip0 in *. fold status_of in Hrun, Hlog1.
    replace (n + S (MAX_WIFI_RETRY_COUNT - S n))%nat
      with MAX_WIFI_RETRY_COUNT in Hrun by lia.
    rewrite Hstart, Hrun. clear Hrun Hstart.
    assert (fst (fst (cy_wcm_connect_ap (world m1) configured_params
                        (ip_addr m1))) = CY_RSLT_SUCCESS) as Hnow.
    { unfold status_of, attempt_status in Hok. rewrite <- Hafter in Hok.
      exact Hok. }
    rewrite after_attempts_last, <- Hafter.
    cbn [connect_ap_loop]. unfold bind at 1. unfold call_cy_wcm_connect_ap.
    rewrite Hparam1.
    destruct (cy_wcm_connect_ap (world m1) configured_params (ip_addr m1))
      as [[r a'] w'].
    cbn [fst snd] in Hnow. subst r. rewrite Z.eqb_refl.
    unfold bind at 1. unfold ssid_of_connect_param.
    unfold bind at 1. unfold APP_INFO.
    unfold bind at 1. unfold print_assigned_address.
    cbn [ip_addr emit set_ip_addr set_world].
    assert (attempts (S n) =
            attempts n ++ [Ev_cy_wcm_connect_ap configured_params
                             CY_RSLT_SUCCESS]) as Hattempts.
    { unfold attempts. rewrite seq_S, !List.map_app. cbn. now rewrite Hok. }
    destruct (cy_wcm_ip_version_eqb CY_WCM_IP_VER_V4 (version a'));
      (do 2 eexists; split; [reflexivity|];
       cbn [log emit set_ip_addr set_world world ip_addr connect_param ret];
       rewrite Hlog1, Hlog0, <- !app_assoc; split; [reflexivity|];
       split; [|split; [|reflexivity]];
       cbn [app];
       change (?a :: ?b :: ?c :: flat_map ?f ?l ++ ?rest)
         with ([a; b; c] ++ flat_map f l ++ rest);
       autorewrite with log;
       [ now rewrite Hattempts
       | cbn; rewrite length_app, List.length_map, length_seq; cbn; lia ]).
  - intros Hfail.
    destruct (connect_ap_loop_failures MAX_WIFI_RETRY_COUNT O O
                CY_RSLT_SUCCESS m0)
      as (m1 & Hrun & Hlog1 & _).
    { rewrite Hparam0, Hw0, Hip0. exact Hfail. }
    rewrite Hparam0, Hw0, Hip0 in *. fold status_of in Hrun, Hlog1.
    rewrite Nat.add_0_r in Hrun. rewrite Hstart, Hrun.
    do 3 eexists. split; [reflexivity|].
    rewrite Hlog1, Hlog0, <- !app_assoc. split; [reflexivity|].
    split; [|split].
    + cbn [app].
      change (?a :: ?b :: ?c :: flat_map ?f ?l)
        with ([a; b; c] ++ flat_map f l).
      autorewrite with log. reflexivity.
    + cbn [app].
      change (?a :: ?b :: ?c :: flat_map ?f ?l)
        with ([a; b; c] ++ flat_map f l).
      autorewrite with log. cbn. now rewrite List.length_map, length_seq.
    + intros Hpos.
      destruct MAX_WIFI_RETRY_COUNT as [|n] eqn:Hmax; [lia|].
      replace (S n - 1)%nat with n by lia.
      rewrite statuses_last. split; [reflexivity|]. apply Hfail. lia.
Qed.

(** C8.  When [cy_wcm_init] returns a status other than success,
    [wifi_connect] returns that status and its only call is that
    initialization: no association is attempted. *)
Theorem wifi_connect_init_failure (m : machine) :
  let config := {| interface := CY_WCM_INTERFACE_TYPE_STA |} in
  let status := fst (cy_wcm_init (world m) config) in
  status <> CY_RSLT_SUCCESS ->
  exists m',
    wifi_connect m = Returned status m' /\
    log m' = log m ++ [Ev_cy_wcm_init config status] /\
    association_attempts (log m') = association_attempts (log m).
Proof.
  intros config status Hfail. subst status.
  unfold wifi_connect. fold config.
  unfold bind at 1. unfold call_cy_wcm_init.
  destruct (cy_wcm_init (world m) config) as [result w].
  cbn [fst] in *.
  destruct (CY_RSLT_SUCCESS =? result) eqn:E.
  - apply Z.eqb_eq in E. congruence.
  - eexists. split; [reflexivity|]. cbn [log emit set_world].
    split; [reflexivity|].
    rewrite association_attempts_app. cbn. apply app_nil_r.
Qed.

(** C10.  When [MAX_WIFI_RETRY_COUNT] is zero, [wifi_connect] attempts no
    association and returns the status of [cy_wcm_init]: success after a
    successful initialization, with [ip_addr] as it was. *)
Theorem wifi_connect_no_retry (m : machine) :
  let config := {| interface := CY_WCM_INTERFACE_TYPE_STA |} in
  let status := fst (cy_wcm_init (world m) config) in
  MAX_WIFI_RETRY_COUNT = O ->
  exists m' evs,
    wifi_connect m = Returned status m' /\
    log m' = log m ++ evs /\
    calls evs = [Ev_cy_wcm_init config status] /\
    association_attempts evs = [] /\
    ip_addr m' = ip_addr m.
Proof.
  intros config status Hmax. subst status.
  unfold wifi_connect. fold config. rewrite Hmax.
  unfold bind at 1. unfold call_cy_wcm_init.
  destruct (cy_wcm_init (world m) config) as [result w].
  cbn [fst] in *.
  destruct (CY_RSLT_SUCCESS =? result) eqn:E.
  - do 2 eexists. split; [reflexivity|]. cbn. rewrite <- !app_assoc.
    repeat split; reflexivity.
  - do 2 eexists. split; [reflexivity|]. cbn.
    repeat split; reflexivity.
Qed.

End Wifi.

Import Stubs.

Lemma wifi_connect_retries_witness :
  (exists m' evs,
     wifi_connect (boot script_ok 4) = Returned 0 m' /\
     List.length (association_attempts evs) = 3%nat /\
     ip_addr m' = stub_address 2) /\
  (exists m' evs,
     wifi_connect (boot script_never_joins 4) = Returned 8 m' /\
     List.length (association_attempts evs) = 3%nat).
Proof.
  split.
  - destruct (proj1 (wifi_connect_retries (boot script_ok 4) eq_refl) 3%nat)
      as (m' & evs & Hrun & _ & _ & Hcount & Hafter).
    + cbv. lia.
    + intros [|[|j]] Hj; [discriminate | discriminate | cbn in Hj; lia].
    + reflexivity.
    + exists m', evs. split; [exact Hrun|]. split; [exact Hcount|].
      apply (f_equal snd) in Hafter. exact Hafter.
  - destruct (proj2 (wifi_connect_retries (boot script_never_joins 4) eq_refl))
      as (status & m' & evs & Hrun & _ & _ & Hcount & Hlast).
    + intros [|[|[|j]]] Hj;
        [discriminate | discriminate | discriminate | cbv in Hj; lia].
    + exists m', evs. destruct Hlast as [-> _]; [cbv; lia|].
      split; [exact Hrun | exact Hcount].
Defined.

Lemma wifi_connect_init_failure_witness :
  exists m',
    wifi_connect (boot script_wcm_init_fails 4) = Returned 3 m' /\
    log m' = [Ev_cy_wcm_init {| interface := CY_WCM_INTERFACE_TYPE_STA |} 3] /\
    association_attempts (log m') = [].
Proof.
  apply (wifi_connect_init_failure (boot script_wcm_init_fails 4)).
  discriminate.
Defined.

Lemma wifi_connect_no_retry_witness :
  exists m' evs,
    wifi_connect (boot script_no_retry 4) = Returned 0 m' /\
    log m' = evs /\
    calls evs = [Ev_cy_wcm_init {| interface := CY_WCM_INTERFACE_TYPE_STA |} 0] /\
    association_attempts evs = [] /\
    ip_addr m' = {| version := CY_WCM_IP_VER_V6; ip := 0 |}.
Proof.
  apply (wifi_connect_no_retry (boot script_no_retry 4)).
  reflexivity.
Defined.

End WifiFacts.

(* ===================================================================== *)
(** ** Facts about [network_idle_task] *)
(* ===================================================================== *)

Module IdleFacts.

Import Firmware Idle.
Import ITreeNotations LeafNotations.
Local Open Scope itree_scope.

Section Task.

Context {platform : Platform}.

(** One turn of the loop: the body, then the loop again. *)
Lemma while_true_unfold (body : itree idleE unit) :
  while_loop true body ≈ body ;; while_loop true body.
Proof.
  unfold while_loop. rewrite unfold_iter at 1. rewrite bind_bind.
  apply eutt_eq_bind. intros []. rewrite bind_ret_l, tau_eutt. reflexivity.
Qed.

(** No run of the loop reaches a return. *)
Lemma while_true_no_leaf (body : itree idleE unit) (r : unit) :
  ~ r ∈ while_loop true body.
Proof.
  intros Hleaf.
  apply (Leaf_iter_inv
           (fun _ : unit => body ;; Ret (inl tt))
           tt (fun _ => True) (fun _ : unit => False)) with (r := r).
  - intros i lr _ Hlr.
    apply Leaf_bind_inv in Hlr. destruct Hlr as (u & _ & Hret).
    apply Leaf_Ret_inv in Hret. subst lr. exact I.
  - exact I.
  - exact Hleaf.
Qed.

(** A continuation applied to a value runs as its result does. *)
Lemma run_subst_ret {X : Type} fuel netif status (x : X)
    (k : X -> itree idleE unit) :
  run fuel netif status (ITree.subst k (Ret x)) = run fuel netif status (k x).
Proof. destruct fuel; reflexivity. Qed.

(** Three steps of the loop are one turn: the two calls and the jump back. *)
Lemma run_while_true n netif status (wifi : option Netif) :
  run (3 * n) netif status (while_loop true (suspend_then_delay wifi)) =
  (List.concat (repeat (one_turn wifi) n), false).
Proof.
  induction n as [|n IH]; [reflexivity|].
  replace (3 * S n)%nat with (S (S (S (3 * n)))) by lia.
  cbn [run]. cbn.
  change (ITree.iter
            (fun _ : unit => suspend_then_delay wifi ;; Ret (inl tt)) tt)
    with (while_loop true (suspend_then_delay wifi)).
  change (n + (n + (n + 0)))%nat with (3 * n)%nat.
  rewrite IH. reflexivity.
Qed.

(** C6.  [network_idle_task] never returns: no run of it, whatever the
    collaborators answer, reaches a return.  After it has taken the station
    interface, it is the loop, and each turn of the loop is: the call to
    [wait_net_suspend] with that interface, [portMAX_DELAY] and the
    configured interval and window, then, when that call has returned, the
    delay of [NETWORK_SUSPEND_DELAY_MS], then the loop again.  Run step by
    step, for any number [n] of turns and any answers of the collaborators,
    the task shows the interface being taken and then [n] times a
    suspension followed by a delay, and it has not returned. *)
Theorem network_idle_task_never_returns (arg : Z) :
  (forall r : unit, ~ r ∈ network_idle_task arg) /\
  (network_idle_task arg ≈
   wifi <- ITree.trigger (Cy_lwip_get_interface CY_LWIP_STA_NW_INTERFACE) ;;
   while_loop true (suspend_then_delay wifi)) /\
  (forall wifi : option Netif,
     while_loop true (suspend_then_delay wifi) ≈
     ITree.trigger
       (Wait_net_suspend wifi portMAX_DELAY NETWORK_INACTIVE_INTERVAL_MS
          NETWORK_INACTIVE_WINDOW_MS) ;;
     ITree.trigger (VTaskDelay (pdMS_TO_TICKS NETWORK_SUSPEND_DELAY_MS)) ;;
     while_loop true (suspend_then_delay wifi)) /\
  forall (n : nat) (netif : option Netif) (status : Z),
    run (S (3 * n)) netif status (network_idle_task arg) =
    (Obs_get_interface CY_LWIP_STA_NW_INTERFACE ::
     List.concat (repeat (one_turn netif) n),
     false).
Proof.
  split; [|split; [|split]].
  - intros r Hleaf. unfold network_idle_task in Hleaf.
    apply Leaf_bind_inv in Hleaf. destruct Hleaf as (wifi & _ & Hloop).
    exact (while_true_no_leaf _ r Hloop).
  - reflexivity.
  - intros wifi. rewrite while_true_unfold at 1.
    unfold suspend_then_delay. rewrite bind_bind. reflexivity.
  - intros n netif status.
    unfold network_idle_task. cbn [run]. cbn.
    change (n + (n + (n + 0)))%nat with (3 * n)%nat.
    now rewrite run_subst_ret, run_while_true.
Qed.

End Task.

Import Stubs.

(** The first steps of the task on the stubs: the interface is taken once,
    then suspension and delay alternate, and the task has not returned. *)
Example network_idle_task_first_steps :
  let wait :=
    @Obs_wait_net_suspend (stub script_ok) (Some tt) 4294967295 300 200 in
  let delay := @Obs_delay (stub script_ok) 400 in
  @run (stub script_ok) 9 (Some tt) 0 (network_idle_task 0) =
  ([Obs_get_interface CY_LWIP_STA_NW_INTERFACE;
    wait; delay; wait; delay; wait; delay],
   false).
Proof. reflexivity. Qed.

End IdleFacts.

(* ===================================================================== *)
(** ** More about the descriptor lookup: lists of any shape *)
(* ===================================================================== *)

Module LookupExtra.

Import CString Firmware.

Section Lookup.

Context {platform : Platform}.

Lemma skipped_not_stopped ol search_name i :
  skipped_at ol search_name i -> stops_at ol search_name i -> False.
Proof.
  intros (d & stored & Hnth & Hname & Hno) (d' & Hnth' & Hstop).
  rewrite Hnth in Hnth'. injection Hnth' as <-.
  destruct Hstop as [Hnone | (stored' & Hname' & Hyes)]; [congruence|].
  rewrite Hname in Hname'. injection Hname' as <-. contradiction.
Qed.

Lemma matches_stops ol search_name j :
  matches_at ol search_name j -> stops_at ol search_name j.
Proof.
  intros (d & stored & Hnth & Hname & Hyes). exists d. split; [exact Hnth|].
  right. now exists stored.
Qed.

Lemma skipped_at_tail d rest search_name i :
  skipped_at (d :: rest) search_name (S i) <-> skipped_at rest search_name i.
Proof. reflexivity. Qed.

Lemma stops_at_tail d rest search_name j :
  stops_at (d :: rest) search_name (S j) <-> stops_at rest search_name j.
Proof. reflexivity. Qed.

(** The scan of any array: it stops at the first position that holds a
    descriptor without a name or with a matching name, and it runs off the
    array when there is no such position. *)
Lemma scan_result rest search_name :
  forall position,
    match scan rest search_name position with
    | Some q =>
        exists j,
          q = (position + j)%nat /\
          (forall i, (i < j)%nat -> skipped_at rest search_name i) /\
          stops_at rest search_name j
    | None =>
        forall i, (i < List.length rest)%nat -> skipped_at rest search_name i
    end.
Proof.
  induction rest as [|d rest IH]; intros position.
  - cbn. intros i Hi. inversion Hi.
  - cbn [scan]. destruct (name d) as [stored|] eqn:Hd.
    + destruct (0 =? strncmp stored search_name (strlen search_name))
        eqn:Hcmp; cbn [negb].
      * apply Z.eqb_eq in Hcmp. symmetry in Hcmp.
        apply CStringFacts.strncmp_strlen_zero in Hcmp.
        exists O. split; [lia|]. split; [intros i Hi; lia|].
        exists d. split; [reflexivity|]. right. now exists stored.
      * apply Z.eqb_neq in Hcmp.
        assert (skipped_at (d :: rest) search_name O) as Hskip.
        { exists d, stored. repeat split; try assumption.
          intros Hyes. apply CStringFacts.strncmp_strlen_zero in Hyes. lia. }
        specialize (IH (S position)).
        destruct (scan rest search_name (S position)) as [q|].
        -- destruct IH as (j & -> & Hbefore & Hstop).
           exists (S j). split; [lia|]. split.
           ++ intros [|i] Hi; [exact Hskip|].
              apply skipped_at_tail, Hbefore. lia.
           ++ now apply stops_at_tail.
        -- intros [|i] Hi; [exact Hskip|].
           apply skipped_at_tail, IH. cbn in Hi. lia.
    + exists O. split; [lia|]. split; [intros i Hi; lia|].
      exists d. split; [reflexivity|]. now left.
Qed.

(** Two positions at which the scan could stop, each with only skipped
    positions before it, are the same position. *)
Lemma stop_unique ol search_name j j' :
  (forall i, (i < j)%nat -> skipped_at ol search_name i) ->
  stops_at ol search_name j ->
  (forall i, (i < j')%nat -> skipped_at ol search_name i) ->
  stops_at ol search_name j' ->
  j = j'.
Proof.
  intros Hbefore Hstop Hbefore' Hstop'.
  destruct (Nat.lt_trichotomy j j') as [Hlt | [Heq | Hgt]]; [|exact Heq|].
  - exfalso. exact (skipped_not_stopped _ _ _ (Hbefore' j Hlt) Hstop).
  - exfalso. exact (skipped_not_stopped _ _ _ (Hbefore j' Hgt) Hstop').
Qed.

(** X1.  On any list, with or without a sentinel, the lookup returns a
    non-NULL pointer [p] exactly when [p] points into the configurator's
    list, at a descriptor whose name starts with the search name, and every
    descriptor before it has a name that does not.  So a pointer that the
    lookup returns can always be dereferenced. *)
Theorem find_my_tko_descriptor_returns_first_match
    (search_name : string) (m : machine) (p : desc_ptr) :
  verdict_of (find_my_tko_descriptor search_name m) = Value (Some p) <->
  get_default_ol_list (world m) = Some (base p) /\
  matches_at (base p) search_name (off p) /\
  forall i, (i < off p)%nat -> skipped_at (base p) search_name i.
Proof.
  rewrite LookupFacts.find_my_tko_descriptor_unfold. cbv zeta.
  destruct (get_default_ol_list (world m)) as [ol|].
  2: { split; [discriminate | intros [H _]; discriminate]. }
  pose proof (scan_result ol search_name O) as Hscan.
  destruct (scan ol search_name O) as [q|].
  - destruct Hscan as (j & -> & Hbefore & Hstop). cbn [Nat.add].
    destruct Hstop as (d & Hnth & Hstop). rewrite Hnth.
    destruct (name d) as [stored|] eqn:Hd.
    + destruct Hstop as [Hnone | (stored' & [= <-] & Hyes)]; [discriminate|].
      cbn. split.
      * intros [= <-]. cbn. split; [reflexivity|]. split; [|exact Hbefore].
        now exists d, stored.
      * intros (Hol & Hmatch & Hbefore'). injection Hol as ->.
        assert (j = off p) as ->.
        { apply (stop_unique (base p) search_name); try assumption.
          - exists d. split; [exact Hnth|]. right. now exists stored.
          - now apply matches_stops. }
        now destruct p.
    + cbn. split; [discriminate|].
      intros (Hol & Hmatch & Hbefore'). injection Hol as ->. exfalso.
      assert (j = off p) as ->.
      { apply (stop_unique (base p) search_name); try assumption.
        - exists d. split; [exact Hnth|]. now left.
        - now apply matches_stops. }
      destruct Hmatch as (d' & stored & Hnth' & Hname & _). congruence.
  - cbn. split; [discriminate|].
    intros (Hol & Hmatch & _). injection Hol as ->. exfalso.
    destruct Hmatch as (d & stored & Hnth & Hname & Hyes).
    assert (off p < List.length (base p))%nat as Hin
        by (apply nth_error_Some; congruence).
    apply (skipped_not_stopped (base p) search_name (off p) (Hscan _ Hin)).
    exists d. split; [exact Hnth|]. right. now exists stored.
Qed.

(** X2.  The lookup reads outside the array exactly when the configurator
    supplies a list in which every descriptor has a name and no name starts
    with the search name: the NULL-name sentinel is what keeps a failed
    search inside the array. *)
Theorem find_my_tko_descriptor_needs_sentinel
    (search_name : string) (m : machine) :
  verdict_of (find_my_tko_descriptor search_name m) = Undefined <->
  exists ol,
    get_default_ol_list (world m) = Some ol /\
    forall i, (i < List.length ol)%nat -> skipped_at ol search_name i.
Proof.
  rewrite LookupFacts.find_my_tko_descriptor_unfold. cbv zeta.
  destruct (get_default_ol_list (world m)) as [ol|].
  2: { split; [discriminate | intros (ol & H & _); discriminate]. }
  pose proof (scan_result ol search_name O) as Hscan.
  destruct (scan ol search_name O) as [q|].
  - destruct Hscan as (j & -> & Hbefore & Hstop). cbn [Nat.add].
    assert (forall ol', Some ol = Some ol' ->
              (forall i, (i < List.length ol')%nat ->
                 skipped_at ol' search_name i) -> False) as Hno.
    { intros ol' [= <-] Hall. destruct Hstop as (d & Hnth & Hstop).
      assert (j < List.length ol)%nat as Hin
          by (apply nth_error_Some; congruence).
      apply (skipped_not_stopped ol search_name j (Hall j Hin)).
      now exists d. }
    destruct Hstop as (d & Hnth & _). rewrite Hnth.
    destruct (name d); cbn;
      (split; [discriminate | intros (ol' & Hol & Hall); exfalso; eauto]).
  - cbn. split; [|reflexivity]. intros _. now exists ol.
Qed.

(** X3.  What the lookup adds to the log: the call to
    [get_default_ol_list], and then the "unable to find" diagnostic exactly
    when it returns NULL.  When the configurator supplies no list it
    returns NULL. *)
Theorem find_my_tko_descriptor_reports_failure
    (search_name : string) (m : machine) :
  let o := find_my_tko_descriptor search_name m in
  log (final o) =
  log m ++ Ev_get_default_ol_list ::
    match verdict_of o with
    | Value None => [Err (Unable_to_find_offloads search_name)]
    | _ => []
    end /\
  (get_default_ol_list (world m) = None -> verdict_of o = Value None).
Proof.
  cbv zeta. rewrite LookupFacts.find_my_tko_descriptor_unfold. cbv zeta.
  destruct (get_default_ol_list (world m)) as [ol|].
  2: { cbn. rewrite <- app_assoc. split; reflexivity. }
  split; [|discriminate].
  destruct (scan ol search_name O) as [k|]; [|reflexivity].
  destruct (nth_error ol k) as [d|]; [|reflexivity].
  destruct (name d); cbn; [reflexivity|].
  now rewrite <- app_assoc.
Qed.

(** X4.  A search name of length zero matches every name: on a list that
    is not empty the lookup returns a pointer to the first descriptor when
    that descriptor has a name, and NULL when it is the sentinel; it looks
    at no other descriptor. *)
Theorem find_my_tko_descriptor_empty_name
    (search_name : string) (m : machine) (d : ol_desc_t)
    (rest : list ol_desc_t) :
  strlen search_name = O ->
  get_default_ol_list (world m) = Some (d :: rest) ->
  verdict_of (find_my_tko_descriptor search_name m) =
  Value (match name d with
         | Some _ => Some {| base := d :: rest; off := O |}
         | None => None
         end).
Proof.
  intros Hlen Hol.
  rewrite LookupFacts.find_my_tko_descriptor_unfold. cbv zeta. rewrite Hol.
  cbn [scan]. rewrite Hlen.
  destruct (name d) as [stored|] eqn:Hd; cbn; now rewrite Hd.
Qed.

End Lookup.

Import Stubs.

Lemma find_my_tko_descriptor_returns_first_match_witness :
  verdict_of (find_my_tko_descriptor "TKO" (boot script_ok 4)) =
  Value (Some {| base := offloads; off := 1 |}).
Proof.
  apply (proj2 (find_my_tko_descriptor_returns_first_match "TKO"
                  (boot script_ok 4) {| base := offloads; off := 1 |})).
  split; [reflexivity|]. split.
  - exists {| name := Some "TKO"%string; cfg := Some tko_cfg |}, "TKO"%string.
    split; [reflexivity|]. split; [reflexivity|]. now exists [].
  - intros [|i] Hi; [|cbn in Hi; lia].
    exists {| name := Some "Pkt_Filter"%string; cfg := None |},
      "Pkt_Filter"%string.
    split; [reflexivity|]. split; [reflexivity|].
    intros [rest Hrest]. discriminate Hrest.
Defined.

Lemma find_my_tko_descriptor_needs_sentinel_witness :
  verdict_of (find_my_tko_descriptor "TKO" (boot script_unterminated 4)) =
  Undefined.
Proof.
  apply (proj2 (find_my_tko_descriptor_needs_sentinel "TKO"
                  (boot script_unterminated 4))).
  exists offloads_unterminated. split; [reflexivity|].
  intros [|[|i]] Hi; [| |cbn in Hi; lia].
  - exists {| name := Some "Pkt_Filter"%string; cfg := None |},
      "Pkt_Filter"%string.
    split; [reflexivity|]. split; [reflexivity|].
    intros [rest Hrest]. discriminate Hrest.
  - exists {| name := Some "ARP"%string; cfg := None |}, "ARP"%string.
    split; [reflexivity|]. split; [reflexivity|].
    intros [rest Hrest]. discriminate Hrest.
Defined.

Lemma find_my_tko_descriptor_empty_name_witness :
  verdict_of (find_my_tko_descriptor "" (boot script_ok 4)) =
  Value (Some {| base := offloads; off := 0 |}).
Proof.
  apply (find_my_tko_descriptor_empty_name ""%string (boot script_ok 4)
           {| name := Some "Pkt_Filter"%string; cfg := None |}
           [ {| name := Some "TKO"%string; cfg := Some tko_cfg |}; sentinel ]
           eq_refl eq_refl).
Defined.

End LookupExtra.

(* ===================================================================== *)
(** ** More about [tcp_socket_connection_start]: slots, arguments, reports *)
(* ===================================================================== *)

Module ConnectExtra.

Import CString Firmware ListFacts.

Lemma nth_error_update_other {A : Type} (v : A) (a : list A) :
  forall i j, i <> j -> nth_error (update i v a) j = nth_error a j.
Proof.
  induction a as [|x a IH]; intros [|i] [|j] Hij; cbn; try reflexivity.
  - contradiction.
  - apply IH. lia.
Qed.

Section Connect.

Context {platform : Platform}.

(** *** Logs *)

Lemma reported_failures_app (a b : list event) :
  reported_failures (a ++ b) = reported_failures a ++ reported_failures b.
Proof.
  induction a as [|e a IH]; [reflexivity|].
  destruct e as [| | | | | |msg|]; cbn; try exact IH.
  destruct msg; cbn; try exact IH. now rewrite IH.
Qed.

Lemma reported_connections_app (a b : list event) :
  reported_connections (a ++ b) =
  reported_connections a ++ reported_connections b.
Proof.
  induction a as [|e a IH]; [reflexivity|].
  destruct e as [| | | | | | |msg]; cbn; try exact IH.
  destruct msg; cbn; try exact IH. now rewrite IH.
Qed.

(** In a log whose only calls are connect attempts, the calls are connect
    attempts. *)
Lemma calls_of_loop (evs : list event) :
  Forall (fun e => is_connect_attempt e = is_call e) evs ->
  Forall (fun e => is_connect_attempt e = true) (calls evs).
Proof.
  intros Hall. apply Forall_forall. intros e Hin.
  apply List.filter_In in Hin. destruct Hin as [Hin Hcall].
  rewrite Forall_forall in Hall. now rewrite (Hall e Hin).
Qed.

(** *** The loop over the slots, in full *)

Lemma connect_slot_trace netif downloaded index status (m : machine) port :
  nth_error (ports downloaded) index = Some port ->
  (index < List.length (global_socket m))%nat ->
  exists status' m' evs,
    connect_slot netif downloaded index status m = Returned status' m' /\
    log m' = log m ++ evs /\
    List.length (global_socket m') = List.length (global_socket m) /\
    (forall i, i <> index \/ is_configured port = false ->
       nth_error (global_socket m') i = nth_error (global_socket m) i) /\
    Forall (well_addressed downloaded) evs /\
    Forall (fun e => is_connect_attempt e = is_call e) evs /\
    reported_failures evs = filter attempt_failed (connect_attempts evs) /\
    reported_connections evs =
    List.map fst
      (filter (fun a => negb (attempt_failed a)) (connect_attempts evs)).
Proof.
  intros Hport Hindex.
  unfold connect_slot, bind, read_port. rewrite Hport.
  destruct (is_configured port) eqn:Hconf.
  - unfold call_cy_tcp_create_socket_connection.
    destruct (nth_error (global_socket m) index) as [slot|] eqn:Hslot.
    2: { apply nth_error_None in Hslot. lia. }
    destruct (cy_tcp_create_socket_connection (world m) netif slot
                (remote_ip port) (remote_port port) (local_port port)
                downloaded ENABLE_HOST_TCP_KEEPALIVE)
      as [[result slot'] w].
    assert (well_addressed downloaded
              (Ev_cy_tcp_create_socket_connection index (remote_ip port)
                 (remote_port port) (local_port port) downloaded
                 ENABLE_HOST_TCP_KEEPALIVE result)) as Hcall.
    { exists port. repeat split; assumption. }
    destruct (CY_RSLT_SUCCESS =? result) eqn:Hresult; cbn [negb];
      (do 3 eexists; split; [reflexivity|]; cbn [log emit];
       rewrite <- app_assoc; split; [reflexivity|];
       split; [apply update_length|]; split;
       [ intros i [Hi | Hi]; [|discriminate];
         cbn; apply nth_error_update_other; congruence
       | split; [repeat constructor; exact Hcall|];
         split; [repeat constructor|];
         cbn; unfold attempt_failed; cbn; rewrite Hresult;
         split; reflexivity ]).
  - do 3 eexists. split; [reflexivity|]. cbn [log emit].
    split; [reflexivity|]. split; [reflexivity|]. split; [reflexivity|].
    split; [repeat constructor|]. split; [repeat constructor|].
    split; reflexivity.
Qed.

Lemma connect_loop_trace netif downloaded :
  forall remaining index status (m : machine),
    (index + remaining <= List.length (ports downloaded))%nat ->
    (index + remaining <= List.length (global_socket m))%nat ->
    exists status' m' evs,
      connect_loop remaining netif downloaded index status m =
      Returned status' m' /\
      log m' = log m ++ evs /\
      List.length (global_socket m') = List.length (global_socket m) /\
      (forall i,
         configured_at downloaded i = false \/ (i < index)%nat \/
         (index + remaining <= i)%nat ->
         nth_error (global_socket m') i = nth_error (global_socket m) i) /\
      Forall (well_addressed downloaded) evs /\
      Forall (fun e => is_connect_attempt e = is_call e) evs /\
      reported_failures evs = filter attempt_failed (connect_attempts evs) /\
      reported_connections evs =
      List.map fst
        (filter (fun a => negb (attempt_failed a)) (connect_attempts evs)).
Proof.
  induction remaining as [|remaining IH]; intros index status m Hports Hslots.
  - exists status, m, []. rewrite app_nil_r.
    repeat split; try reflexivity; constructor.
  - destruct (nth_error (ports downloaded) index) as [port|] eqn:Hport.
    2: { apply nth_error_None in Hport. lia. }
    destruct (connect_slot_trace netif downloaded index status m port Hport)
      as (status1 & m1 & evs1 & Hrun1 & Hlog1 & Hlen1 & Hkeep1 & Hargs1
          & Hcalls1 & Hfail1 & Hok1); [lia|].
    destruct (IH (S index) status1 m1) as
      (status2 & m2 & evs2 & Hrun2 & Hlog2 & Hlen2 & Hkeep2 & Hargs2
       & Hcalls2 & Hfail2 & Hok2); [lia | lia |].
    exists status2, m2, (evs1 ++ evs2).
    cbn [connect_loop]. unfold bind at 1. rewrite Hrun1.
    split; [exact Hrun2|].
    split; [now rewrite Hlog2, Hlog1, app_assoc|].
    split; [congruence|].
    split; [|split; [|split; [|split]]].
    + intros i Hi. rewrite Hkeep2, Hkeep1; [reflexivity | |].
      * destruct (Nat.eq_dec i index) as [-> | Hne]; [|now left].
        right. destruct Hi as [Hi | [Hi | Hi]]; [|lia|lia].
        unfold configured_at in Hi. now rewrite Hport in Hi.
      * destruct Hi as [Hi | [Hi | Hi]]; [now left | right; left; lia|].
        right. right. lia.
    + apply Forall_app. now split.
    + apply Forall_app. now split.
    + rewrite reported_failures_app, ConnectFacts.connect_attempts_app,
        List.filter_app. congruence.
    + rewrite reported_connections_app, ConnectFacts.connect_attempts_app,
        List.filter_app, List.map_app. congruence.
Qed.

(** The run of the function when the lookup finds a descriptor with a
    configuration, in full. *)
Lemma start_trace (m : machine) p d downloaded :
  fst (cy_socket_init (world m)) = CY_RSLT_SUCCESS ->
  verdict_of (find_my_tko_descriptor TCP_KEEPALIVE_OFFLOAD (initialized m)) =
  Value (Some p) ->
  nth_error (base p) (off p) = Some d ->
  cfg d = Some downloaded ->
  List.length (ports downloaded) = MAX_TKO ->
  List.length (global_socket m) = MAX_TKO ->
  exists status m' evs,
    tcp_socket_connection_start m = Returned status m' /\
    log m' = log m ++ evs /\
    List.length (global_socket m') = MAX_TKO /\
    (forall i, configured_at downloaded i = false ->
       nth_error (global_socket m') i = nth_error (global_socket m) i) /\
    Forall (well_addressed downloaded) evs /\
    (exists connects,
       calls evs =
       [Ev_cy_lwip_get_interface CY_LWIP_STA_NW_INTERFACE;
        Ev_cy_socket_init CY_RSLT_SUCCESS; Ev_get_default_ol_list]
         ++ connects /\
       Forall (fun e => is_connect_attempt e = true) connects) /\
    reported_failures evs = filter attempt_failed (connect_attempts evs) /\
    reported_connections evs =
    List.map fst
      (filter (fun a => negb (attempt_failed a)) (connect_attempts evs)).
Proof.
  intros Hinit Hfound Hd Hcfg Hports Hslots.
  rewrite (ConnectFacts.start_after_init m Hinit).
  unfold bind at 1.
  rewrite (ConnectFacts.lookup_found (initialized m) (initialized m) _ p
             eq_refl Hfound).
  unfold bind at 1. unfold deref. rewrite Hd, Hcfg.
  unfold bind at 1. unfold APP_INFO.
  destruct (connect_loop_trace
              (cy_lwip_get_interface (world m) CY_LWIP_STA_NW_INTERFACE)
              downloaded MAX_TKO O CY_RSLT_SUCCESS
              (emit (Info Taking_configuration)
                 (emit Ev_get_default_ol_list (initialized m))))
    as (status & m' & evs & Hrun & Hlog & Hlen & Hkeep & Hargs & Hcalls
        & Hfail & Hok).
  { cbn. lia. }
  { cbn [global_socket emit].
    rewrite ConnectFacts.initialized_global_socket. cbn. lia. }
  cbn [global_socket emit] in Hlen, Hkeep.
  rewrite ConnectFacts.initialized_global_socket in Hlen, Hkeep.
  exists status, m',
    ([Ev_cy_lwip_get_interface CY_LWIP_STA_NW_INTERFACE;
      Ev_cy_socket_init (fst (cy_socket_init (world m)));
      Ev_get_default_ol_list; Info Taking_configuration] ++ evs).
  split; [exact Hrun|]. split.
  { rewrite Hlog. cbn [log emit]. rewrite ConnectFacts.initialized_log.
    now rewrite <- !app_assoc. }
  split; [congruence|].
  split; [intros i Hi; apply Hkeep; now left|].
  split; [apply Forall_app; split; [repeat constructor | exact Hargs]|].
  split.
  { exists (calls evs). rewrite WifiFacts.calls_app, Hinit.
    split; [reflexivity|]. exact (calls_of_loop evs Hcalls). }
  split.
  - rewrite reported_failures_app, ConnectFacts.connect_attempts_app.
    exact Hfail.
  - rewrite reported_connections_app, ConnectFacts.connect_attempts_app.
    exact Hok.
Qed.

(** X5.  When initialization succeeds and the lookup finds a descriptor
    with a configuration, [global_socket] keeps its [MAX_TKO] slots and
    every slot whose binding is not configured holds what it held before:
    only the slots of configured bindings are handed to the socket helper. *)
Theorem tcp_socket_connection_start_untouched_slots
    (m : machine) p d downloaded :
  fst (cy_socket_init (world m)) = CY_RSLT_SUCCESS ->
  verdict_of (find_my_tko_descriptor TCP_KEEPALIVE_OFFLOAD (initialized m)) =
  Value (Some p) ->
  nth_error (base p) (off p) = Some d ->
  cfg d = Some downloaded ->
  List.length (ports downloaded) = MAX_TKO ->
  List.length (global_socket m) = MAX_TKO ->
  exists status m',
    tcp_socket_connection_start m = Returned status m' /\
    List.length (global_socket m') = MAX_TKO /\
    forall i, configured_at downloaded i = false ->
      nth_error (global_socket m') i = nth_error (global_socket m) i.
Proof.
  intros Hinit Hfound Hd Hcfg Hports Hslots.
  destruct (start_trace m p d downloaded Hinit Hfound Hd Hcfg Hports Hslots)
    as (status & m' & evs & Hrun & _ & Hlen & Hkeep & _).
  now exists status, m'.
Qed.

(** X6.  Under the same conditions, every connect attempt in the log was
    made for a configured binding of the blob found, with that binding's
    remote address, remote port and local port, in that order, with the
    blob itself and with [ENABLE_HOST_TCP_KEEPALIVE]. *)
Theorem tcp_socket_connection_start_arguments (m : machine) p d downloaded :
  fst (cy_socket_init (world m)) = CY_RSLT_SUCCESS ->
  verdict_of (find_my_tko_descriptor TCP_KEEPALIVE_OFFLOAD (initialized m)) =
  Value (Some p) ->
  nth_error (base p) (off p) = Some d ->
  cfg d = Some downloaded ->
  List.length (ports downloaded) = MAX_TKO ->
  List.length (global_socket m) = MAX_TKO ->
  exists status m' evs,
    tcp_socket_connection_start m = Returned status m' /\
    log m' = log m ++ evs /\
    forall index ip_str rport lport blob host_keepalive result,
      In (Ev_cy_tcp_create_socket_connection index ip_str rport lport blob
            host_keepalive result) evs ->
      exists port,
        nth_error (ports downloaded) index = Some port /\
        is_configured port = true /\
        ip_str = remote_ip port /\ rport = remote_port port /\
        lport = local_port port /\ blob = downloaded /\
        host_keepalive = ENABLE_HOST_TCP_KEEPALIVE.
Proof.
  intros Hinit Hfound Hd Hcfg Hports Hslots.
  destruct (start_trace m p d downloaded Hinit Hfound Hd Hcfg Hports Hslots)
    as (status & m' & evs & Hrun & Hlog & _ & _ & Hargs & _).
  exists status, m', evs. split; [exact Hrun|]. split; [exact Hlog|].
  intros index ip_str rport lport blob host_keepalive result Hin.
  rewrite Forall_forall in Hargs. exact (Hargs _ Hin).
Qed.

(** X7.  Under the same conditions, the diagnostics tell what happened:
    the "unable to connect" errors are, in order, the attempts that failed,
    each with its slot and its status, and the "created connection"
    messages are, in order, the slots of the attempts that succeeded. *)
Theorem tcp_socket_connection_start_reports (m : machine) p d downloaded :
  fst (cy_socket_init (world m)) = CY_RSLT_SUCCESS ->
  verdict_of (find_my_tko_descriptor TCP_KEEPALIVE_OFFLOAD (initialized m)) =
  Value (Some p) ->
  nth_error (base p) (off p) = Some d ->
  cfg d = Some downloaded ->
  List.length (ports downloaded) = MAX_TKO ->
  List.length (global_socket m) = MAX_TKO ->
  exists status m' evs,
    tcp_socket_connection_start m = Returned status m' /\
    log m' = log m ++ evs /\
    reported_failures evs = filter attempt_failed (connect_attempts evs) /\
    reported_connections evs =
    List.map fst
      (filter (fun a => negb (attempt_failed a)) (connect_attempts evs)).
Proof.
  intros Hinit Hfound Hd Hcfg Hports Hslots.
  destruct (start_trace m p d downloaded Hinit Hfound Hd Hcfg Hports Hslots)
    as (status & m' & evs & Hrun & Hlog & _ & _ & _ & _ & Hfail & Hok).
  now exists status, m', evs.
Qed.

(** X12.  Under the same conditions, the calls the function makes are
    [cy_lwip_get_interface], then [cy_socket_init], then
    [get_default_ol_list], once each and in that order, and after them
    connect attempts only: the socket library is initialized before the
    lookup and before any connect, and nothing else is called. *)
Theorem tcp_socket_connection_start_calls (m : machine) p d downloaded :
  fst (cy_socket_init (world m)) = CY_RSLT_SUCCESS ->
  verdict_of (find_my_tko_descriptor TCP_KEEPALIVE_OFFLOAD (initialized m)) =
  Value (Some p) ->
  nth_error (base p) (off p) = Some d ->
  cfg d = Some downloaded ->
  List.length (ports downloaded) = MAX_TKO ->
  List.length (global_socket m) = MAX_TKO ->
  exists status m' evs connects,
    tcp_socket_connection_start m = Returned status m' /\
    log m' = log m ++ evs /\
    calls evs =
    [Ev_cy_lwip_get_interface CY_LWIP_STA_NW_INTERFACE;
     Ev_cy_socket_init CY_RSLT_SUCCESS; Ev_get_default_ol_list]
      ++ connects /\
    Forall (fun e => is_connect_attempt e = true) connects.
Proof.
  intros Hinit Hfound Hd Hcfg Hports Hslots.
  destruct (start_trace m p d downloaded Hinit Hfound Hd Hcfg Hports Hslots)
    as (status & m' & evs & Hrun & Hlog & _ & _ & _
        & (connects & Hcalls & Hconnects) & _).
  now exists status, m', evs, connects.
Qed.

(** X8.  After a successful initialization the two ways in which the
    configuration can be missing give the same status but different
    diagnostics.  When the lookup returns NULL the function logs the
    lookup's own error and then "offload configuration not found"; when the
    descriptor is found and its configuration is NULL it logs "offload
    descriptor not found".  In both cases its calls are
    [cy_lwip_get_interface], [cy_socket_init] and [get_default_ol_list],
    once each. *)
Theorem tcp_socket_connection_start_missing_reports (m : machine) :
  fst (cy_socket_init (world m)) = CY_RSLT_SUCCESS ->
  let lookup :=
    verdict_of (find_my_tko_descriptor TCP_KEEPALIVE_OFFLOAD (initialized m)) in
  let prefix :=
    [Ev_cy_lwip_get_interface CY_LWIP_STA_NW_INTERFACE;
     Ev_cy_socket_init CY_RSLT_SUCCESS; Ev_get_default_ol_list] in
  (lookup = Value None ->
   log (final (tcp_socket_connection_start m)) =
   log m ++ prefix ++
     [Err (Unable_to_find_offloads TCP_KEEPALIVE_OFFLOAD);
      Err Offload_configuration_not_found]) /\
  (forall p d,
     lookup = Value (Some p) ->
     nth_error (base p) (off p) = Some d -> cfg d = None ->
     log (final (tcp_socket_connection_start m)) =
     log m ++ prefix ++ [Err Offload_descriptor_not_found]).
Proof.
  intros Hinit lookup prefix. subst lookup prefix.
  split.
  - intros Hnone.
    rewrite (ConnectFacts.start_after_init m Hinit). unfold bind at 1.
    rewrite (ConnectFacts.lookup_not_found (initialized m) (initialized m) _
               eq_refl Hnone).
    cbn [final bind ERR_INFO ret log emit].
    rewrite ConnectFacts.initialized_log, Hinit, <- !app_assoc. reflexivity.
  - intros p d Hfound Hd Hcfg.
    rewrite (ConnectFacts.start_after_init m Hinit). unfold bind at 1.
    rewrite (ConnectFacts.lookup_found (initialized m) (initialized m) _ p
               eq_refl Hfound).
    unfold bind at 1. unfold deref. rewrite Hd, Hcfg.
    cbn [final bind ERR_INFO ret log emit].
    rewrite ConnectFacts.initialized_log, Hinit, <- !app_assoc. reflexivity.
Qed.

End Connect.

Import Stubs.

Lemma tcp_socket_connection_start_untouched_slots_witness :
  exists status m',
    tcp_socket_connection_start (boot script_ok 4) = Returned status m' /\
    List.length (global_socket m') = 4%nat /\
    nth_error (global_socket m') 1 = Some None /\
    nth_error (global_socket m') 3 = Some None.
Proof.
  destruct (tcp_socket_connection_start_untouched_slots (boot script_ok 4)
              {| base := offloads; off := 1 |}
              {| name := Some "TKO"%string; cfg := Some tko_cfg |} tko_cfg
              eq_refl eq_refl eq_refl eq_refl eq_refl eq_refl)
    as (status & m' & Hrun & Hlen & Hkeep).
  exists status, m'. split; [exact Hrun|]. split; [exact Hlen|].
  split; [exact (Hkeep 1%nat eq_refl) | exact (Hkeep 3%nat eq_refl)].
Defined.

Lemma tcp_socket_connection_start_arguments_witness :
  exists status m' evs,
    tcp_socket_connection_start (boot script_ok 4) = Returned status m' /\
    log m' = evs /\
    forall result,
      In (Ev_cy_tcp_create_socket_connection 2 "192.168.1.12" 3362 3355
            tko_cfg 0 result) evs ->
      exists port, nth_error (ports tko_cfg) 2 = Some port.
Proof.
  destruct (tcp_socket_connection_start_arguments (boot script_ok 4)
              {| base := offloads; off := 1 |}
              {| name := Some "TKO"%string; cfg := Some tko_cfg |} tko_cfg
              eq_refl eq_refl eq_refl eq_refl eq_refl eq_refl)
    as (status & m' & evs & Hrun & Hlog & Hargs).
  exists status, m', evs. split; [exact Hrun|]. split; [exact Hlog|].
  intros result Hin. destruct (Hargs _ _ _ _ _ _ _ Hin) as (port & Hport & _).
  now exists port.
Defined.

Lemma tcp_socket_connection_start_reports_witness :
  exists status m' evs,
    tcp_socket_connection_start (boot script_ok 4) = Returned status m' /\
    log m' = evs /\
    reported_failures evs = [(2%nat, 7)] /\
    reported_connections evs = [0%nat].
Proof.
  destruct (tcp_socket_connection_start_reports (boot script_ok 4)
              {| base := offloads; off := 1 |}
              {| name := Some "TKO"%string; cfg := Some tko_cfg |} tko_cfg
              eq_refl eq_refl eq_refl eq_refl eq_refl eq_refl)
    as (status & m' & evs & Hrun & Hlog & _).
  exists status, m', evs. split; [exact Hrun|]. split; [exact Hlog|].
  assert (m' = final (tcp_socket_connection_start (boot script_ok 4))) as Hm
      by (rewrite Hrun; reflexivity).
  change (log m' = evs) in Hlog. subst evs. rewrite Hm.
  split; reflexivity.
Defined.

Lemma tcp_socket_connection_start_calls_witness :
  exists status m' evs connects,
    tcp_socket_connection_start (boot script_ok 4) = Returned status m' /\
    log m' = evs /\
    calls evs =
    [Ev_cy_lwip_get_interface CY_LWIP_STA_NW_INTERFACE;
     Ev_cy_socket_init 0; Ev_get_default_ol_list] ++ connects /\
    Forall (fun e => is_connect_attempt e = true) connects.
Proof.
  apply (tcp_socket_connection_start_calls (boot script_ok 4)
           {| base := offloads; off := 1 |}
           {| name := Some "TKO"%string; cfg := Some tko_cfg |} tko_cfg
           eq_refl eq_refl eq_refl eq_refl eq_refl eq_refl).
Defined.

Lemma tcp_socket_connection_start_missing_reports_witness :
  log (final (tcp_socket_connection_start (boot script_no_cfg 4))) =
  [Ev_cy_lwip_get_interface CY_LWIP_STA_NW_INTERFACE;
   Ev_cy_socket_init 0; Ev_get_default_ol_list;
   Err Offload_descriptor_not_found].
Proof.
  apply (proj2 (tcp_socket_connection_start_missing_reports
                  (boot script_no_cfg 4) eq_refl)
           {| base := offloads_no_cfg; off := 0 |}
           {| name := Some "TKO"%string; cfg := None |});
    reflexivity.
Defined.

End ConnectExtra.

(* ===================================================================== *)
(** ** More about [wifi_connect]: any collaborator, and the diagnostics *)
(* ===================================================================== *)

Module WifiExtra.

Import Firmware ListFacts.

Section Wifi.

Context {platform : Platform}.

Lemma cy_wcm_ip_version_eqb_eq (a b : cy_wcm_ip_version_t) :
  cy_wcm_ip_version_eqb a b = true <-> a = b.
Proof. destruct a, b; cbn; split; congruence. Qed.

Lemma retry_notices_app (a b : list event) :
  retry_notices (a ++ b) = (retry_notices a + retry_notices b)%nat.
Proof.
  induction a as [|e a IH]; [reflexivity|].
  destruct e as [| | | | | |msg|]; cbn; try exact IH.
  destruct msg; cbn; try exact IH. now rewrite IH.
Qed.

(** The loop, for any behaviour of the association collaborator. *)
Lemma connect_ap_loop_trace :
  forall remaining retry_count result (m : machine),
  exists status m' evs,
    connect_ap_loop remaining retry_count result m = Returned status m' /\
    log m' = log m ++ evs /\
    connect_param m' = connect_param m /\
    global_socket m' = global_socket m /\
    (List.length (association_attempts evs) <= remaining)%nat /\
    status = last (association_attempts evs) result /\
    Forall (fun s => s <> CY_RSLT_SUCCESS)
      (removelast (association_attempts evs)) /\
    ((List.length (association_attempts evs) < remaining)%nat ->
     association_attempts evs <> [] /\ status = CY_RSLT_SUCCESS) /\
    calls evs =
    List.map (Ev_cy_wcm_connect_ap (connect_param m))
      (association_attempts evs) /\
    retry_notices evs = List.length (failures (association_attempts evs)) /\
    (forall v,
       In (Info (Assigned_IP_address v)) evs <->
       association_attempts evs <> [] /\ status = CY_RSLT_SUCCESS /\
       version (ip_addr m') = CY_WCM_IP_VER_V4 /\ v = ip (ip_addr m')).
Proof.
  induction remaining as [|remaining IH]; intros retry_count result m.
  - exists result, m, []. rewrite app_nil_r. cbn.
    split; [reflexivity|]. split; [reflexivity|]. split; [reflexivity|].
    split; [reflexivity|]. split; [lia|]. split; [reflexivity|].
    split; [constructor|]. split; [lia|]. split; [reflexivity|].
    split; [reflexivity|].
    intros v. split; [intros [] | intros (H & _); now elim H].
  - cbn [connect_ap_loop]. unfold bind at 1. unfold call_cy_wcm_connect_ap.
    destruct (cy_wcm_connect_ap (world m) (connect_param m) (ip_addr m))
      as [[r a'] w'].
    destruct (CY_RSLT_SUCCESS =? r) eqn:Hr.
    + apply Z.eqb_eq in Hr. subst r.
      unfold bind at 1. unfold ssid_of_connect_param.
      unfold bind at 1. unfold APP_INFO.
      unfold bind at 1. unfold print_assigned_address.
      cbn [ip_addr emit set_ip_addr set_world].
      destruct (cy_wcm_ip_version_eqb CY_WCM_IP_VER_V4 (version a')) eqn:Hv.
      * apply cy_wcm_ip_version_eqb_eq in Hv.
        do 3 eexists. split; [reflexivity|].
        cbn [log emit set_ip_addr set_world connect_param global_socket
             ip_addr ret].
        rewrite <- !app_assoc. split; [reflexivity|].
        cbn. unfold failures. cbn. rewrite Z.eqb_refl. cbn.
        split; [reflexivity|]. split; [reflexivity|]. split; [lia|].
        split; [reflexivity|]. split; [constructor|].
        split; [intros _; split; [discriminate | reflexivity]|].
        split; [reflexivity|]. split; [reflexivity|].
        intros v. split.
        -- intros [H1 | [H2 | [H3 | []]]]; try discriminate.
           injection H3 as <-.
           split; [discriminate|]. split; [reflexivity|].
           split; [now symmetry | reflexivity].
        -- intros (_ & _ & _ & ->). right. right. now left.
      * do 3 eexists. split; [reflexivity|].
        cbn [log emit set_ip_addr set_world connect_param global_socket
             ip_addr ret].
        rewrite <- !app_assoc. split; [reflexivity|].
        cbn. unfold failures. cbn. rewrite Z.eqb_refl. cbn.
        split; [reflexivity|]. split; [reflexivity|]. split; [lia|].
        split; [reflexivity|]. split; [constructor|].
        split; [intros _; split; [discriminate | reflexivity]|].
        split; [reflexivity|]. split; [reflexivity|].
        intros v. split.
        -- intros [H1 | [H2 | []]]; discriminate.
        -- intros (_ & _ & Hv4 & _). exfalso.
           symmetry in Hv4. apply cy_wcm_ip_version_eqb_eq in Hv4. congruence.
    + apply Z.eqb_neq in Hr.
      unfold bind at 1. unfold ERR_INFO.
      destruct (IH (S retry_count) r
                  (emit (Err Failed_to_join)
                     (emit (Ev_cy_wcm_connect_ap (connect_param m) r)
                        (set_ip_addr a' (set_world w' m)))))
        as (status & m' & evs & Hrun & Hlog & Hparam & Hslots & Hlen & Hstatus
            & Hfront & Hearly & Hcalls & Hretry & Haddr).
      cbn [log emit set_ip_addr set_world connect_param global_socket]
        in Hlog, Hparam, Hslots, Hcalls.
      exists status, m',
        ([Ev_cy_wcm_connect_ap (connect_param m) r; Err Failed_to_join]
           ++ evs).
      split; [exact Hrun|].
      split; [now rewrite Hlog, <- !app_assoc|].
      split; [exact Hparam|]. split; [exact Hslots|].
      cbn [app association_attempts calls filter is_call retry_notices].
      assert (status = CY_RSLT_SUCCESS -> association_attempts evs <> [])
        as Hsome.
      { intros Hs Hnil. rewrite Hnil in Hstatus. cbn in Hstatus. congruence. }
      split; [cbn; lia|].
      split; [now rewrite last_cons_default|].
      split.
      { destruct (association_attempts evs) as [|s l] eqn:Hl;
          [constructor|].
        change (removelast (r :: s :: l)) with (r :: removelast (s :: l)).
        constructor; [congruence | assumption]. }
      split.
      { intros Hshort. cbn in Hshort.
        destruct Hearly as [_ Hs]; [lia|]. split; [discriminate | exact Hs]. }
      split; [unfold calls in *; cbn; now rewrite Hcalls|].
      split.
      { unfold failures. cbn.
        destruct (CY_RSLT_SUCCESS =? r) eqn:E;
          [apply Z.eqb_eq in E; congruence|].
        cbn. now rewrite Hretry. }
      intros v. split.
      * intros [H1 | [H2 | H]]; try discriminate.
        apply Haddr in H. destruct H as (_ & Hs & Hv4 & Hip).
        repeat split; try assumption. discriminate.
      * intros (_ & Hs & Hv4 & Hip). right. right.
        apply Haddr. repeat split; auto.
Qed.

(** X9.  Whatever the collaborators answer, [wifi_connect] returns, after
    at most [MAX_WIFI_RETRY_COUNT] association attempts, with the status of
    the last call it made: that of the last attempt, or that of
    [cy_wcm_init] when it made none.  Every attempt before the last failed.
    It returns a failure only when the initialization failed or all
    [MAX_WIFI_RETRY_COUNT] attempts were used.  After a failed
    initialization it makes no attempt and leaves [connect_param] as it
    was; after a successful one [connect_param] holds the configured
    credentials and every attempt was made with them.  [global_socket] is
    never changed. *)
Theorem wifi_connect_bounded (m : machine) :
  let config := {| interface := CY_WCM_INTERFACE_TYPE_STA |} in
  let init_status := fst (cy_wcm_init (world m) config) in
  exists status m' evs,
    wifi_connect m = Returned status m' /\
    log m' = log m ++ evs /\
    global_socket m' = global_socket m /\
    (List.length (association_attempts evs) <= MAX_WIFI_RETRY_COUNT)%nat /\
    status = last (association_attempts evs) init_status /\
    Forall (fun s => s <> CY_RSLT_SUCCESS)
      (removelast (association_attempts evs)) /\
    (status <> CY_RSLT_SUCCESS ->
     init_status <> CY_RSLT_SUCCESS \/
     List.length (association_attempts evs) = MAX_WIFI_RETRY_COUNT) /\
    (init_status <> CY_RSLT_SUCCESS ->
     association_attempts evs = [] /\ connect_param m' = connect_param m) /\
    (init_status = CY_RSLT_SUCCESS ->
     connect_param m' = configured_params /\
     calls evs =
     Ev_cy_wcm_init config CY_RSLT_SUCCESS ::
     List.map (Ev_cy_wcm_connect_ap configured_params)
       (association_attempts evs)).
Proof.
  intros config init_status.
  destruct (Z.eq_dec init_status CY_RSLT_SUCCESS) as [Hinit | Hinit].
  - destruct (WifiFacts.wifi_connect_after_init m Hinit)
      as (m0 & Hstart & Hlog0 & _ & _ & Hparam0 & Hslots0).
    fold config in Hlog0.
    destruct (connect_ap_loop_trace MAX_WIFI_RETRY_COUNT O CY_RSLT_SUCCESS m0)
      as (status & m' & evs & Hrun & Hlog & Hparam & Hslots & Hlen & Hstatus
          & Hfront & Hearly & Hcalls & _).
    exists status, m',
      ([Ev_cy_wcm_init config CY_RSLT_SUCCESS;
        Info Wifi_initialization_successful;
        Info (Join_to_AP WIFI_SSID)] ++ evs).
    rewrite WifiFacts.association_attempts_app, WifiFacts.calls_app.
    cbn [association_attempts app].
    split; [now rewrite Hstart|].
    split; [now rewrite Hlog, Hlog0, <- app_assoc|].
    split; [congruence|]. split; [exact Hlen|].
    split; [now rewrite Hinit|]. split; [exact Hfront|].
    split.
    { intros Hfail. right.
      destruct (Nat.lt_ge_cases (List.length (association_attempts evs))
                  MAX_WIFI_RETRY_COUNT) as [Hshort | Hfull]; [|lia].
      destruct (Hearly Hshort) as [_ Hs]. contradiction. }
    split; [intros Hbad; contradiction|].
    intros _. split; [congruence|].
    rewrite Hcalls, Hparam0. reflexivity.
  - unfold wifi_connect. fold config.
    unfold bind at 1. unfold call_cy_wcm_init.
    subst init_status.
    destruct (cy_wcm_init (world m) config) as [result w].
    cbn [fst] in *.
    destruct (CY_RSLT_SUCCESS =? result) eqn:E.
    { apply Z.eqb_eq in E. congruence. }
    do 3 eexists. split; [reflexivity|]. cbn [log emit set_world].
    split; [reflexivity|]. cbn.
    split; [reflexivity|]. split; [lia|]. split; [reflexivity|].
    split; [constructor|]. split; [now left|].
    split; [intros _; split; reflexivity|].
    intros Hok. contradiction.
Qed.

(** X10.  Whatever the collaborators answer, [wifi_connect] prints
    "Failed to join ... Retrying" once for each failed attempt, the last
    one of an exhausted run included, after which it does not retry.  It
    prints an assigned address exactly when an attempt succeeded and the
    address written by that attempt is an IPv4 one, and what it prints is
    the address left in [ip_addr]. *)
Theorem wifi_connect_diagnostics (m : machine) :
  exists status m' evs,
    wifi_connect m = Returned status m' /\
    log m' = log m ++ evs /\
    retry_notices evs = List.length (failures (association_attempts evs)) /\
    forall v,
      In (Info (Assigned_IP_address v)) evs <->
      association_attempts evs <> [] /\ status = CY_RSLT_SUCCESS /\
      version (ip_addr m') = CY_WCM_IP_VER_V4 /\ v = ip (ip_addr m').
Proof.
  pose (config := {| interface := CY_WCM_INTERFACE_TYPE_STA |}).
  destruct (Z.eq_dec (fst (cy_wcm_init (world m) config)) CY_RSLT_SUCCESS)
    as [Hinit | Hinit].
  - destruct (WifiFacts.wifi_connect_after_init m Hinit)
      as (m0 & Hstart & Hlog0 & _).
    fold config in Hlog0.
    destruct (connect_ap_loop_trace MAX_WIFI_RETRY_COUNT O CY_RSLT_SUCCESS m0)
      as (status & m' & evs & Hrun & Hlog & _ & _ & _ & _ & _ & _ & _
          & Hretry & Haddr).
    exists status, m',
      ([Ev_cy_wcm_init config CY_RSLT_SUCCESS;
        Info Wifi_initialization_successful;
        Info (Join_to_AP WIFI_SSID)] ++ evs).
    rewrite WifiFacts.association_attempts_app, retry_notices_app.
    cbn [association_attempts retry_notices app Nat.add].
    split; [now rewrite Hstart|].
    split; [now rewrite Hlog, Hlog0, <- app_assoc|].
    split; [exact Hretry|].
    intros v. rewrite <- Haddr. split.
    + intros [H1 | [H2 | [H3 | H]]]; try discriminate. exact H.
    + intros H. right. right. now right.
  - unfold wifi_connect. fold config.
    unfold bind at 1. unfold call_cy_wcm_init.
    destruct (cy_wcm_init (world m) config) as [result w].
    cbn [fst] in *.
    destruct (CY_RSLT_SUCCESS =? result) eqn:E.
    { apply Z.eqb_eq in E. congruence. }
    do 3 eexists. split; [reflexivity|]. cbn [log emit set_world].
    split; [reflexivity|]. cbn. split; [reflexivity|].
    intros v. split.
    + intros [H1 | []]. discriminate.
    + intros (H & _). now elim H.
Qed.

End Wifi.

End WifiExtra.

(* ===================================================================== *)
(** ** What [tcp_socket_connection_start] leaves alone, however it ends *)
(* ===================================================================== *)

Module FrameFacts.

Import Firmware ListFacts.

Section Frame.

Context {platform : Platform}.















End Frame.

End FrameFacts.
